(** * Sampling-rate simulator: rule matcher and simulation engine

    A shallow embedding of the calculator module of the sample-rate
    simulator ([matchesRule] and [simulateSampling]) together with the
    properties its specification states about them, followed by the rule
    utilities, the breakdown table and the sample-rate table of the user
    interface with properties read off their code.

    Modelling choices.
    - JavaScript numbers are read as exact rationals ([Q]); the embedding is
      meant for finite numbers and a non-zero period length, where no
      infinity or NaN arises.  Sums and products are written in the order
      in which the code evaluates them.  Where the printed digits of a
      computed number are at stake (the percentages of the sample-rate
      table), the rounding of each operation is a parameter.
    - JavaScript strings are [string]s whose characters are read as the code
      units 0..255 (Latin-1); [toLowerCase] and [trim] follow ECMAScript on
      that range.
    - A span group is an attribute bag (a [gmap] from attribute names to
      string values) plus its numeric [count]; rule attributes range over the
      string-valued attributes, and a key that an object answers without
      such an attribute ([count], the inherited members) is not modelled.
    - A property that may be missing on an object is an [option]; [None] is
      JavaScript's [undefined].
    - The regular-expression engine and the number formatters are taken as
      parameters of the development; console output is left out.
    - Code that may throw returns a completion: a value or the error. *)

From Stdlib Require Import Ascii QArith Qminmax Qround Lqa Sorted.
From stdpp Require Import gmap strings list sorting.

(** ** JavaScript string primitives on Latin-1 code units *)

Module JS.

Definition code (c : ascii) : N := Ascii.N_of_ascii c.

(** ECMAScript WhiteSpace and LineTerminator code points below 256:
    TAB, LF, VT, FF, CR, SP and NBSP. *)
Definition isWhiteSpace (c : ascii) : bool :=
  let n := code c in
  ((9 <=? n) && (n <=? 13) || (n =? 32) || (n =? 160))%N.

(** Upper-case letters below 256: A..Z and the accented capitals
    U+00C0..U+00DE without the multiplication sign U+00D7. *)
Definition isUpper (c : ascii) : bool :=
  let n := code c in
  ((65 <=? n) && (n <=? 90)
   || (192 <=? n) && (n <=? 222) && negb (n =? 215))%N.

Definition lowerChar (c : ascii) : ascii :=
  if isUpper c then Ascii.ascii_of_N (code c + 32) else c.

Fixpoint toLowerCase (s : string) : string :=
  match s with
  | EmptyString => EmptyString
  | String c s' => String (lowerChar c) (toLowerCase s')
  end.

Fixpoint trimStart (s : string) : string :=
  match s with
  | EmptyString => EmptyString
  | String c s' => if isWhiteSpace c then trimStart s' else s
  end.

Fixpoint trimEnd (s : string) : string :=
  match s with
  | EmptyString => EmptyString
  | String c s' =>
      match trimEnd s' with
      | EmptyString => if isWhiteSpace c then EmptyString else String c EmptyString
      | t => String c t
      end
  end.

Definition trim (s : string) : string := trimEnd (trimStart s).

(** [s.startsWith(t)] *)
Definition startsWith (s t : string) : bool := String.prefix t s.

(** [s.includes(t)]: [t] is a prefix of some suffix of [s]. *)
Fixpoint includes (s t : string) : bool :=
  startsWith s t ||
  match s with
  | EmptyString => false
  | String _ s' => includes s' t
  end.

(** [s.endsWith(t)]: some suffix of [s] is [t]. *)
Fixpoint endsWith (s t : string) : bool :=
  String.eqb s t ||
  match s with
  | EmptyString => false
  | String _ s' => endsWith s' t
  end.

(** Truthiness of a possibly missing string property: [undefined] and the
    empty string are falsy. *)
Definition truthy (o : option string) : bool :=
  match o with
  | Some (String _ _) => true
  | _ => false
  end.

(** [x || d] for a possibly missing string property. *)
Definition or_else (o : option string) (d : string) : string :=
  match o with
  | Some (String c s) => String c s
  | _ => d
  end.

(** ToString of a possibly missing string, as a property key or a
    template-literal hole applies it. *)
Definition toString (o : option string) : string :=
  match o with
  | Some s => s
  | None => "undefined"
  end.

(** Completion of an evaluation: a value, or a thrown error. *)
Inductive completion (A : Type) : Type :=
| Normal (a : A)
| Throw (e : string).
Arguments Normal {A} a.
Arguments Throw {A} e.

Definition bind {A B} (m : completion A) (k : A → completion B) : completion B :=
  match m with
  | Normal a => k a
  | Throw e => Throw e
  end.

(** [try { body } catch (e) { handler }] where both branches return. *)
Definition try_catch {A} (body : completion A) (handler : string → A) : A :=
  match body with
  | Normal a => a
  | Throw e => handler e
  end.

(** [Array.prototype.sort(cmp)]: a stable sort; [cmp a b > 0] asks for [a]
    to be placed after [b]. *)
Fixpoint sort_insert {A} (cmp : A → A → Z) (x : A) (l : list A) : list A :=
  match l with
  | [] => [x]
  | y :: l' => if (0 <? cmp x y)%Z then y :: sort_insert cmp x l' else x :: l
  end.

Definition sort {A} (cmp : A → A → Z) (l : list A) : list A :=
  foldr (sort_insert cmp) [] l.

End JS.

(** ** Data model *)

(** One aggregated span record: its string attributes and its [count]. *)
Record SpanGroup := {
  attrs : gmap string string;
  count : option Q;
}.

(** The array of groups, with the optional [_totalCountFromMeta] property
    attached to it. *)
Record Dataset := {
  groups : list SpanGroup;
  totalCountFromMeta : option Q;
}.

Record Rule := {
  attribute : option string;
  operator : option string;
  value : option string;
  rate : Q;
}.

(** A breakdown entry: the copied group ([...item]) and the derived fields. *)
Record BreakdownRow := {
  row_item : SpanGroup;
  rawCount : Q;
  simulatedCount : Q;
  samplingRate : Q;
  matchedRule : string;
}.

Record SimulationResult := {
  totalRawCount : Q;
  totalSimulatedCount : Q;
  breakdown : list BreakdownRow;
  costReduction : Q;
  monthlyRawCount : Q;
  monthlySimulatedCount : Q;
}.

(** [item[key] || ''] for a key that names a span attribute: the record's
    own string property, or nothing.  Keys that a JavaScript object answers
    without such a property (the numeric [count], the members inherited
    from [Object.prototype]) are outside this reading; statements about an
    absent attribute are made for the attribute names of the data model
    ([spanAttributes] below). *)
Definition item_get (item : SpanGroup) (key : string) : string :=
  JS.or_else (attrs item !! key) "".

(** [item.count || 0] *)
Definition count_or_0 (item : SpanGroup) : Q :=
  match count item with
  | Some c => c
  | None => 0%Q
  end.

Local Open Scope Q_scope.

Section Calculator.

(** [new RegExp(pattern, 'i')]: throws on an invalid pattern, otherwise
    yields the [test] method of the compiled expression. *)
Variable RegExp_i : string → JS.completion (string → bool).

(** [n.toLocaleString()] *)
Variable toLocaleString : Q → string.

(** *** The rule matcher *)

Definition matchesRule (item : SpanGroup) (rule : Rule) : bool :=
  if negb (JS.truthy (attribute rule)) || negb (JS.truthy (value rule)) then
    false
  else
    let spanValue := item_get item (JS.toString (attribute rule)) in
    let ruleValue := JS.trim (JS.toString (value rule)) in
    let operator := JS.or_else (operator rule) "contains" in
    if negb (JS.truthy (Some spanValue)) then
      false
    else if String.eqb operator "equals" then
      String.eqb (JS.toLowerCase spanValue) (JS.toLowerCase ruleValue)
    else if String.eqb operator "contains" then
      JS.includes (JS.toLowerCase spanValue) (JS.toLowerCase ruleValue)
    else if String.eqb operator "starts_with" then
      JS.startsWith (JS.toLowerCase spanValue) (JS.toLowerCase ruleValue)
    else if String.eqb operator "ends_with" then
      JS.endsWith (JS.toLowerCase spanValue) (JS.toLowerCase ruleValue)
    else if String.eqb operator "regex" then
      JS.try_catch
        (JS.bind (RegExp_i ruleValue) (λ regex, JS.Normal (regex spanValue)))
        (λ _, false)
    else
      JS.includes (JS.toLowerCase spanValue) (JS.toLowerCase ruleValue).

(** *** The simulator *)

(** The comparator handed to [sort]: exact matches before all others. *)
Definition is_equals (r : Rule) : bool :=
  bool_decide (operator r = Some "equals").

Definition compareRules (a b : Rule) : Z :=
  if is_equals a && negb (is_equals b) then (-1)%Z
  else if is_equals b && negb (is_equals a) then 1%Z
  else 0%Z.

Definition sortRules (rules : list Rule) : list Rule :=
  JS.sort compareRules rules.

(** The [for (const rule of sortedRules)] loop with its [break]; the state
    is the pair of [matchedRule] and [samplingRate]. *)
Fixpoint firstMatch (item : SpanGroup) (sortedRules : list Rule)
    (st : option Rule * Q) : option Rule * Q :=
  match sortedRules with
  | [] => st
  | rule :: rest =>
      if matchesRule item rule then (Some rule, rate rule / 100)
      else firstMatch item rest st
  end.

Definition ruleLabel (matched : option Rule) : string :=
  match matched with
  | Some r => JS.toString (attribute r) +:+ ":" +:+ JS.toString (value r)
  | None => "global"
  end.

(** The variables the [forEach] callback updates. *)
Record LoopState := {
  acc_breakdown : list BreakdownRow;
  acc_total : Q;
}.

(** The entry the [forEach] callback builds for one group. *)
Definition groupRow (sortedRules : list Rule) (expansionFactor globalRate : Q)
    (item : SpanGroup) : BreakdownRow :=
  let count := count_or_0 item in
  let '(matchedRule, samplingRate) := firstMatch item sortedRules (None, globalRate) in
  let simulatedCount := count * samplingRate * expansionFactor in
  {| row_item := item;
     rawCount := count;
     simulatedCount := simulatedCount;
     samplingRate := samplingRate;
     matchedRule := ruleLabel matchedRule |}.

(** One run of the callback: add to the total, push the entry. *)
Definition processGroup (sortedRules : list Rule) (expansionFactor globalRate : Q)
    (st : LoopState) (item : SpanGroup) : LoopState :=
  let row := groupRow sortedRules expansionFactor globalRate item in
  {| acc_total := acc_total st + simulatedCount row;
     acc_breakdown := acc_breakdown st ++ [row] |}.

(** The synthetic entry for the spans outside the returned groups. *)
Definition otherRow (missingSpans missingSimulatedCount globalRate : Q) : BreakdownRow :=
  {| row_item :=
       {| attrs :=
            <[ "span.description" :=
                 "Other spans (" +:+ toLocaleString missingSpans
                   +:+ " spans not in top 100 groups)" ]>
              {[ "span.op" := "(other)" ]};
          count := None |};
     rawCount := missingSpans;
     simulatedCount := missingSimulatedCount;
     samplingRate := globalRate;
     matchedRule := "global" |}.

Definition simulateSampling (rawData : Dataset) (rules : list Rule)
    (expansionFactor globalRate days : Q) : SimulationResult :=
  match groups rawData with
  | [] =>
      {| totalRawCount := 0;
         totalSimulatedCount := 0;
         breakdown := [];
         costReduction := 0;
         monthlyRawCount := 0;
         monthlySimulatedCount := 0 |}
  | _ :: _ =>
      let sumOfGroups :=
        fold_left (λ sum item, sum + count_or_0 item) (groups rawData) 0 in
      let totalRawCount :=
        match totalCountFromMeta rawData with
        | Some total => total
        | None => sumOfGroups
        end in
      let missingSpans := totalRawCount - sumOfGroups in
      let hasMissingSpans := if Qlt_le_dec 0 missingSpans then true else false in
      let sortedRules := sortRules rules in
      let st :=
        fold_left (processGroup sortedRules expansionFactor globalRate)
          (groups rawData)
          {| acc_breakdown := []; acc_total := 0 |} in
      let st :=
        if hasMissingSpans then
          let missingSimulatedCount := missingSpans * globalRate * expansionFactor in
          {| acc_total := acc_total st + missingSimulatedCount;
             acc_breakdown :=
               acc_breakdown st ++
               [ otherRow missingSpans missingSimulatedCount globalRate ] |}
        else st in
      let totalSimulatedCount := acc_total st in
      let costReduction :=
        if Qlt_le_dec 0 totalRawCount
        then ((totalRawCount - totalSimulatedCount) / totalRawCount) * 100
        else 0 in
      let daysInMonth := 30 in
      let periodMultiplier := daysInMonth / days in
      let monthlyRawCount := totalRawCount * periodMultiplier in
      let monthlySimulatedCount := totalSimulatedCount * periodMultiplier in
      {| totalRawCount := totalRawCount;
         totalSimulatedCount := totalSimulatedCount;
         breakdown := acc_breakdown st;
         costReduction := Qmax 0 costReduction;
         monthlyRawCount := monthlyRawCount;
         monthlySimulatedCount := monthlySimulatedCount |}
  end.

End Calculator.


(** ** Vocabulary of the statements *)

(** The rule value consists of white space only. *)
Fixpoint allWhiteSpace (s : string) : bool :=
  match s with
  | EmptyString => true
  | String c s' => JS.isWhiteSpace c && allWhiteSpace s'
  end.

(** The attribute names of the data model, the keys every fetched span
    group carries. *)
Definition spanAttributes : list string :=
  [ "span.op"; "span.description"; "span.status"; "span.status_code";
    "span.domain"; "span.action"; "span.module"; "span.system";
    "transaction"; "transaction.op"; "transaction.method";
    "environment"; "release" ].

(** The sum of the group counts, as [reduce] accumulates it. *)
Definition groupSum (gs : list SpanGroup) : Q :=
  fold_left (λ sum item, sum + count_or_0 item) gs 0.

(** A running total over a list of numbers, accumulated from zero in list
    order, as [+=] does. *)
Definition runningTotal (xs : list Q) : Q := fold_left Qplus xs 0.

(** The total raw count the simulator settles on. *)
Definition resolvedTotal (rawData : Dataset) : Q :=
  match totalCountFromMeta rawData with
  | Some total => total
  | None => groupSum (groups rawData)
  end.

(** The rate chosen for a group: the first matching rule of the list, or
    the global rate. *)
Definition chosenRate (matches : Rule → bool) (sortedRules : list Rule)
    (globalRate : Q) : Q :=
  match List.find matches sortedRules with
  | Some rule => rate rule / 100
  | None => globalRate
  end.

(** Two rules that differ in their rate only, the second rate being at
    least the first. *)
Definition rateRaised (r r' : Rule) : Prop :=
  attribute r' = attribute r ∧ operator r' = operator r ∧
  value r' = value r ∧ rate r <= rate r'.

(** ** Sample inputs used to exercise the statements *)

Module Samples.

(** A small stand-in for the expression engine: it rejects the pattern
    ["("] and reads every other pattern as a literal to be found,
    ignoring case. *)
Definition literalRegExp (pattern : string) : JS.completion (string → bool) :=
  if String.eqb pattern "(" then JS.Throw "SyntaxError"
  else JS.Normal (λ s, JS.includes (JS.toLowerCase s) (JS.toLowerCase pattern)).

Definition plainFormat (_ : Q) : string := "n".

Definition group (op : string) (n : Q) : SpanGroup :=
  {| attrs := {[ "span.op" := op ]}; count := Some n |}.

Definition rule (op v : string) (pct : Q) : Rule :=
  {| attribute := Some "span.op"; operator := Some op; value := Some v; rate := pct |}.

Definition twoGroups : Dataset :=
  {| groups := [ group "http.server" 1000; group "db.query" 500 ];
     totalCountFromMeta := None |}.

Definition capped : Dataset :=
  {| groups := [ group "http.server" 700 ]; totalCountFromMeta := Some 1000 |}.

Definition oneGroup : Dataset :=
  {| groups := [ group "db" 100 ]; totalCountFromMeta := None |}.

Definition oneWeek : Dataset :=
  {| groups := [ group "http.server" 700 ]; totalCountFromMeta := None |}.

Definition simulate := simulateSampling literalRegExp plainFormat.

End Samples.

(** ** Rule utilities of the user interface *)

(** [getActiveRules]: the rules that have a value, a value that is not
    blank, and an attribute. *)
Definition isActive (rule : Rule) : bool :=
  JS.truthy (value rule)
  && negb (String.eqb (JS.trim (JS.toString (value rule))) "")
  && JS.truthy (attribute rule).

Definition getActiveRules (rules : list Rule) : list Rule :=
  List.filter isActive rules.

(** The rules of the popup: a [type] (operation or description) in place of
    attribute and operator.  The [id], which the calculator never reads, is
    left out, as it is in [Rule]. *)
Module Popup.

Record rule := {
  type : option string;
  value : option string;
  rate : Q;
}.

(** The conversion to the calculator's format in the popup's
    [handleCalculate]. *)
Definition activeRules (rules : list rule) : list Rule :=
  map
    (λ r,
       Build_Rule
         (Some (if bool_decide (type r = Some "op")
                then "span.op" else "span.description"))
         (Some "contains")
         (value r)
         (rate r))
    (List.filter
       (λ r,
          JS.truthy (value r)
          && negb (String.eqb (JS.trim (JS.toString (value r))) "")
          && JS.truthy (type r))
       rules).

End Popup.

(** A rule with another operator, or another value. *)
Definition withOperator (r : Rule) (op : string) : Rule :=
  {| attribute := attribute r; operator := Some op;
     value := value r; rate := rate r |}.

Definition withValue (r : Rule) (v : string) : Rule :=
  {| attribute := attribute r; operator := operator r;
     value := Some v; rate := rate r |}.

(** ** The breakdown table of the user interface *)

Module JSArray.

(** The relative index of [slice]: a negative index counts from the end,
    and the result is kept within the array. *)
Definition relativeIndex (len k : Z) : Z :=
  if (k <? 0)%Z then Z.max (len + k) 0 else Z.min k len.

(** [a.slice(start, end)] for whole-number indices. *)
Definition slice {A} (a : list A) (start end_ : Z) : list A :=
  let len := Z.of_nat (length a) in
  let from := relativeIndex len start in
  let to := relativeIndex len end_ in
  take (Z.to_nat (to - from)) (drop (Z.to_nat from) a).

End JSArray.

(** The comparator [(a, b) => b.rawCount - a.rawCount], read through its
    sign, which is all [sort] looks at. *)
Definition byRawCountDescending (a b : BreakdownRow) : Z :=
  Z.sgn (Qnum (rawCount b - rawCount a)).

(** Later entries do not have larger raw counts. *)
Definition descending (a b : BreakdownRow) : Prop := rawCount b <= rawCount a.

Module App.

(** The pagination state of the page together with the parts of the
    document that [renderBreakdownPage] writes: the entries placed in the
    breakdown container (their markup is left out), the note shown in place
    of entries, the search box, and the pagination controls; the page
    information is kept as the three numbers its text prints. *)
Record View := {
  breakdownData : list BreakdownRow;
  filteredBreakdownData : list BreakdownRow;
  currentPage : Z;
  container : list BreakdownRow;
  emptyNote : option string;
  breakdownSearch : string;
  paginationDisplay : string;
  prevDisabled : bool;
  nextDisabled : bool;
  pageInfo : Z * Z * Z;
}.

Definition itemsPerPage : Z := 50.

(** [Math.ceil(filteredBreakdownData.length / itemsPerPage)] *)
Definition totalPages (filtered : list BreakdownRow) : Z :=
  Qceiling (inject_Z (Z.of_nat (length filtered)) / inject_Z itemsPerPage).

Definition renderBreakdownPage (v : View) : View :=
  match filteredBreakdownData v with
  | [] =>
      {| breakdownData := breakdownData v;
         filteredBreakdownData := filteredBreakdownData v;
         currentPage := currentPage v;
         container := [];
         emptyNote :=
           Some (if JS.truthy (Some (breakdownSearch v))
                 then "No results found" else "No data available");
         breakdownSearch := breakdownSearch v;
         paginationDisplay := "none";
         prevDisabled := prevDisabled v;
         nextDisabled := nextDisabled v;
         pageInfo := pageInfo v |}
  | _ :: _ =>
      let totalPages := totalPages (filteredBreakdownData v) in
      let startIndex := ((currentPage v - 1) * itemsPerPage)%Z in
      let endIndex := (startIndex + itemsPerPage)%Z in
      let pageItems := JSArray.slice (filteredBreakdownData v) startIndex endIndex in
      if (1 <? totalPages)%Z then
        {| breakdownData := breakdownData v;
           filteredBreakdownData := filteredBreakdownData v;
           currentPage := currentPage v;
           container := pageItems;
           emptyNote := None;
           breakdownSearch := breakdownSearch v;
           paginationDisplay := "flex";
           prevDisabled := (currentPage v =? 1)%Z;
           nextDisabled := (currentPage v =? totalPages)%Z;
           pageInfo :=
             (currentPage v, totalPages,
              Z.of_nat (length (filteredBreakdownData v))) |}
      else
        {| breakdownData := breakdownData v;
           filteredBreakdownData := filteredBreakdownData v;
           currentPage := currentPage v;
           container := pageItems;
           emptyNote := None;
           breakdownSearch := breakdownSearch v;
           paginationDisplay := "none";
           prevDisabled := prevDisabled v;
           nextDisabled := nextDisabled v;
           pageInfo := pageInfo v |}
  end.

Definition searchedAttributes : list string :=
  [ "span.op"; "span.description"; "span.status"; "span.status_code";
    "span.domain"; "span.action"; "span.module"; "span.system";
    "transaction"; "transaction.op"; "transaction.method";
    "environment"; "release" ].

(** [[item['span.op'] || '', ...].join(' ').toLowerCase()] *)
Definition searchableText (item : BreakdownRow) : string :=
  JS.toLowerCase
    (String.concat " " (map (item_get (row_item item)) searchedAttributes)).

Definition filterAndPaginateBreakdown (searchQuery : string) (v : View) : View :=
  match breakdownData v with
  | [] => v
  | _ :: _ =>
      let filtered :=
        if JS.truthy (Some searchQuery) then
          let query := JS.toLowerCase searchQuery in
          List.filter (λ item, JS.includes (searchableText item) query)
            (breakdownData v)
        else breakdownData v in
      renderBreakdownPage
        {| breakdownData := breakdownData v;
           filteredBreakdownData := filtered;
           currentPage := 1;
           container := container v;
           emptyNote := emptyNote v;
           breakdownSearch := breakdownSearch v;
           paginationDisplay := paginationDisplay v;
           prevDisabled := prevDisabled v;
           nextDisabled := nextDisabled v;
           pageInfo := pageInfo v |}
  end.

Definition renderBreakdown (breakdown : list BreakdownRow) (v : View) : View :=
  let sorted := JS.sort byRawCountDescending breakdown in
  renderBreakdownPage
    {| breakdownData := sorted;
       filteredBreakdownData := sorted;
       currentPage := 1;
       container := container v;
       emptyNote := emptyNote v;
       breakdownSearch := "";
       paginationDisplay := paginationDisplay v;
       prevDisabled := prevDisabled v;
       nextDisabled := nextDisabled v;
       pageInfo := pageInfo v |}.

Definition withPage (v : View) (page : Z) : View :=
  {| breakdownData := breakdownData v;
     filteredBreakdownData := filteredBreakdownData v;
     currentPage := page;
     container := container v;
     emptyNote := emptyNote v;
     breakdownSearch := breakdownSearch v;
     paginationDisplay := paginationDisplay v;
     prevDisabled := prevDisabled v;
     nextDisabled := nextDisabled v;
     pageInfo := pageInfo v |}.

(** The listeners that [init] installs. *)
Definition onSearchInput (text : string) (v : View) : View :=
  filterAndPaginateBreakdown (JS.trim text)
    {| breakdownData := breakdownData v;
       filteredBreakdownData := filteredBreakdownData v;
       currentPage := currentPage v;
       container := container v;
       emptyNote := emptyNote v;
       breakdownSearch := text;
       paginationDisplay := paginationDisplay v;
       prevDisabled := prevDisabled v;
       nextDisabled := nextDisabled v;
       pageInfo := pageInfo v |}.

Definition onPrevPage (v : View) : View :=
  if (1 <? currentPage v)%Z
  then renderBreakdownPage (withPage v (currentPage v - 1))
  else v.

Definition onNextPage (v : View) : View :=
  let totalPages := totalPages (filteredBreakdownData v) in
  if (currentPage v <? totalPages)%Z
  then renderBreakdownPage (withPage v (currentPage v + 1))
  else v.

(** What the user does with the table. *)
Inductive event :=
| Render (breakdown : list BreakdownRow)
| SearchInput (text : string)
| PrevPage
| NextPage.

Definition handle (ev : event) (v : View) : View :=
  match ev with
  | Render breakdown => renderBreakdown breakdown v
  | SearchInput text => onSearchInput text v
  | PrevPage => onPrevPage v
  | NextPage => onNextPage v
  end.

(** The page as the script finds it: no data, first page, whatever the
    document holds in the controls. *)
Definition loaded (v : View) : Prop :=
  breakdownData v = [] ∧ filteredBreakdownData v = [] ∧ currentPage v = 1%Z ∧
  container v = [].

(** The view after a run of events. *)
Definition run (evs : list event) (v : View) : View :=
  fold_left (λ v ev, handle ev v) evs v.

End App.

(** ** Number formatting and the sample-rate table *)

(** A value of the decoded API response, as far as the rows of the events
    endpoint hold them: [null], a string or a number; a key that is absent
    reads as [undefined], here [None]. *)
Inductive JSValue :=
| JNull
| JString (s : string)
| JNumber (q : Q).

Definition valueTruthy (o : option JSValue) : bool :=
  match o with
  | Some (JString (String _ _)) => true
  | Some (JNumber q) => negb (Qeq_bool q 0)
  | _ => false
  end.

(** [x || d] on such values. *)
Definition valueOr (o : option JSValue) (d : JSValue) : JSValue :=
  match o with
  | Some v => if valueTruthy o then v else d
  | None => d
  end.

Record SampleRateEntry := {
  entry_group : JSValue;
  entry_sampleRate : JSValue;
  entry_count : Z;
  entry_percentage : option string;
}.

Section Formatting.

(** [x.toFixed(digits)] and [n.toLocaleString()] *)
Variable toFixed : nat → Q → string.
Variable toLocaleString : Q → string.

(** [parseInt(x, 10)]; [None] is NaN. *)
Variable parseInt : JSValue → option Z.

(** The number that a division or a multiplication yields: the exact
    result rounded to the nearest number of the floating-point format.  The
    share of an entry is rounded twice, after the division and after the
    multiplication, before [toFixed] prints it. *)
Variable binary64 : Q → Q.

Definition formatNumber (num : Q) : string :=
  if Qle_bool 1000000000 num then
    toFixed 2 (num / 1000000000) +:+ "B"
  else if Qle_bool 1000000 num then
    toFixed 2 (num / 1000000) +:+ "M"
  else if Qle_bool 1000 num then
    toFixed 2 (num / 1000) +:+ "K"
  else toLocaleString num.

(** The loop of [fetchSampleRates] over the rows of the response; the state
    is the list under construction and the running total. *)
Definition addSampleRate (singleProject : bool)
    (st : list SampleRateEntry * Z) (item : gmap string JSValue)
    : list SampleRateEntry * Z :=
  let '(sampleRates, totalCount) := st in
  let count :=
    parseInt (valueOr (item !! "count(span.duration)")
                (valueOr (item !! "count()") (JNumber 0))) in
  let sampleRate := item !! "client_sample_rate" in
  match count with
  | Some count =>
      if (0 <? count)%Z then
        let groupLabel :=
          if singleProject
          then valueOr (item !! "span.op") (JString "(unknown)")
          else valueOr (item !! "project") (JString "(unknown)") in
        (sampleRates ++
           [ {| entry_group := groupLabel;
                entry_sampleRate :=
                  match sampleRate with
                  | Some JNull | None => JString "N/A"
                  | Some v => v
                  end;
                entry_count := count;
                entry_percentage := None |} ],
         (totalCount + count)%Z)
      else st
  | None => st
  end.

Definition setPercentage (totalCount : Z) (item : SampleRateEntry) : SampleRateEntry :=
  {| entry_group := entry_group item;
     entry_sampleRate := entry_sampleRate item;
     entry_count := entry_count item;
     entry_percentage :=
       Some (if (0 <? totalCount)%Z
             then toFixed 2
                    (binary64
                       (binary64 (inject_Z (entry_count item) / inject_Z totalCount)
                        * 100))
             else "0.00") |}.

(** The processing of the response in [fetchSampleRates]: [rows] is
    [data.data] when it is an array. *)
Definition processSampleRates (singleProject : bool)
    (rows : option (list (gmap string JSValue))) : list SampleRateEntry * Z :=
  match rows with
  | None => ([], 0%Z)
  | Some rows =>
      let '(sampleRates, totalCount) :=
        fold_left (addSampleRate singleProject) rows ([], 0%Z) in
      let sampleRates := map (setPercentage totalCount) sampleRates in
      (JS.sort (λ a b, (entry_count b - entry_count a)%Z) sampleRates,
       totalCount)
  end.

End Formatting.

(** ** The breakdown list of the popup *)

(** The popup lists the twenty entries with the largest raw counts, each
    with a label and its two counts, and counts the rest in a last line.
    The container is given as the lines appended to it, together with the
    way the call completes. *)
Module PopupView.

Inductive Line :=
| Item (label : string) (value : string)
| More (n : Z).

Section Document.

Variable toFixed : nat → Q → string.
Variable toLocaleString : Q → string.

(** The label reads the properties [op] and [description] of the item;
    [item.description.substring] throws when the item has no description. *)
Definition label (item : BreakdownRow) : JS.completion string :=
  let op := attrs (row_item item) !! "op" in
  match attrs (row_item item) !! "description" with
  | None => JS.Throw "TypeError"
  | Some description =>
      if negb (String.eqb description "(no description)") then
        JS.Normal
          (JS.toString op +:+ ": " +:+ String.substring 0 50 description +:+
           (if (50 <? String.length description)%nat then "..." else ""))
      else JS.Normal (JS.toString op)
  end.

Definition breakdownItem (item : BreakdownRow) : JS.completion Line :=
  JS.bind (label item) (λ label,
    JS.Normal
      (Item label
         (formatNumber toFixed toLocaleString (simulatedCount item) +:+ " / " +:+
          formatNumber toFixed toLocaleString (rawCount item)))).

(** [topItems.forEach]: the lines are appended one by one; an error ends
    the loop and leaves the container as it is. *)
Fixpoint appendItems (items : list BreakdownRow) (container : list Line)
    : list Line * JS.completion unit :=
  match items with
  | [] => (container, JS.Normal tt)
  | item :: items =>
      match breakdownItem item with
      | JS.Normal line => appendItems items (container ++ [line])
      | JS.Throw e => (container, JS.Throw e)
      end
  end.

Definition renderBreakdown (breakdown : list BreakdownRow)
    : list Line * JS.completion unit :=
  match breakdown with
  | [] => ([], JS.Normal tt)
  | _ :: _ =>
      let sorted := JS.sort byRawCountDescending breakdown in
      let topItems := JSArray.slice sorted 0 20 in
      match appendItems topItems [] with
      | (container, JS.Normal _) =>
          if (20 <? Z.of_nat (length sorted))%Z
          then (container ++ [More (Z.of_nat (length sorted) - 20)], JS.Normal tt)
          else (container, JS.Normal tt)
      | (container, JS.Throw e) => (container, JS.Throw e)
      end
  end.

End Document.

End PopupView.

(** The sum of the counts of a list of entries. *)
Definition countTotal (entries : list SampleRateEntry) : Z :=
  foldr Z.add 0%Z (map entry_count entries).

(** The entries of page [p] of a list. *)
Definition pageSlice (shown : list BreakdownRow) (p : Z) : list BreakdownRow :=
  JSArray.slice shown ((p - 1) * App.itemsPerPage)
    ((p - 1) * App.itemsPerPage + App.itemsPerPage).

(** What holds of the view after every event: the page is in range, the
    container holds the entries of the current page, the shown entries are
    drawn in order from the sorted data, and the controls agree with the
    page. *)
Definition viewInvariant (v : App.View) : Prop :=
  let shown := App.filteredBreakdownData v in
  let p := App.currentPage v in
  let pages := App.totalPages shown in
  (1 ≤ p)%Z ∧
  (shown ≠ [] → (p ≤ pages)%Z) ∧
  (shown = [] → p = 1%Z) ∧
  App.container v = pageSlice shown p ∧
  shown `sublist_of` App.breakdownData v ∧
  StronglySorted descending (App.breakdownData v) ∧
  (shown ≠ [] →
     App.emptyNote v = None ∧
     if (1 <? pages)%Z then
       App.paginationDisplay v = "flex" ∧
       App.prevDisabled v = (p =? 1)%Z ∧
       App.nextDisabled v = (p =? pages)%Z ∧
       App.pageInfo v = (p, pages, Z.of_nat (length shown))
     else App.paginationDisplay v = "none") ∧
  (shown = [] → App.breakdownData v ≠ [] →
     App.paginationDisplay v = "none" ∧
     App.emptyNote v = Some "No results found").

(** ** The calculate action of the full-page application *)

Module AppRules.

(** A rule of the form: the calculator's fields and the [id] that ties the
    rule to its inputs. *)
Record rule := {
  id : string;
  fields : Rule;
}.

(** The quotation mark. *)
Definition quote : string := String (Ascii.ascii_of_nat 34) EmptyString.

(** [`${selector}[data-rule-id="${id}"]`] *)
Definition ruleSelector (selector id : string) : string :=
  selector +:+ "[data-rule-id=" +:+ quote +:+ id +:+ quote +:+ "]".

(** [`[data-field="name"]`] *)
Definition fieldSelector (name : string) : string :=
  "[data-field=" +:+ quote +:+ name +:+ quote +:+ "]".

Section Document.

(** The document, as the action reads it: for a selector, the value of the
    text input or select it finds (nothing: [null]) and the number that
    [parseFloat] reads from the range input it finds; the number read from
    the expansion-factor input ([None]: NaN) and from the global-rate
    slider. *)
Variable inputValue : string → option string.
Variable sliderValue : string → option Q.
Variable expansionFactorInput : option Q.
Variable globalRateSlider : Q.

Variable RegExp_i : string → JS.completion (string → bool).
Variable toLocaleString : Q → string.

Definition syncRule (valueSelector : string)
    (attributeSelector operatorSelector : option string) (rateSelector : string)
    (r : rule) : rule :=
  let valueInput := inputValue (ruleSelector valueSelector (id r)) in
  let rateSlider := sliderValue (ruleSelector rateSelector (id r)) in
  let f := fields r in
  let f :=
    match valueInput with
    | Some text => withValue f (JS.trim text)
    | None => f
    end in
  let f :=
    match rateSlider with
    | Some number =>
        {| attribute := attribute f; operator := operator f;
           value := value f; rate := number |}
    | None => f
    end in
  let f :=
    if JS.truthy attributeSelector then
      match inputValue (ruleSelector (JS.toString attributeSelector) (id r)) with
      | Some name =>
          {| attribute := Some name; operator := operator f;
             value := value f; rate := rate f |}
      | None => f
      end
    else f in
  let f :=
    if JS.truthy operatorSelector then
      match inputValue (ruleSelector (JS.toString operatorSelector) (id r)) with
      | Some name => withOperator f name
      | None => f
      end
    else f in
  {| id := id r; fields := f |}.

Definition syncRuleValuesFromDOM (rules : list rule) (valueSelector : string)
    (attributeSelector operatorSelector : option string) (rateSelector : string)
    : list rule :=
  map (syncRule valueSelector attributeSelector operatorSelector rateSelector) rules.

(** [handleCalculate]: the rules after the synchronisation, and the error
    message shown or the result handed to the display. *)
Definition handleCalculate (currentSpanData : option Dataset) (rules : list rule)
    (currentDays : Q) : list rule * (string + SimulationResult) :=
  match currentSpanData with
  | None => (rules, inl "No span data available. Please fetch data first.")
  | Some spanData =>
      match groups spanData with
      | [] => (rules, inl "No span data available. Please fetch data first.")
      | _ :: _ =>
          let rules :=
            syncRuleValuesFromDOM rules
              (fieldSelector "value")
              (Some (fieldSelector "attribute"))
              (Some (fieldSelector "operator"))
              (fieldSelector "rate") in
          let activeRules := getActiveRules (map fields rules) in
          let expansionFactor :=
            match expansionFactorInput with
            | Some number => if Qeq_bool number 0 then 1 else number
            | None => 1
            end in
          let globalRate := globalRateSlider / 100 in
          (rules,
           inr (simulateSampling RegExp_i toLocaleString spanData activeRules
                  expansionFactor globalRate currentDays))
      end
  end.

End Document.

End AppRules.

(** ** Sample inputs for the user interface *)

Module UISamples.

(** An entry of a breakdown with the given operation and raw count. *)
Definition entry (op : string) (n : Z) : BreakdownRow :=
  {| row_item := Samples.group op (inject_Z n);
     rawCount := inject_Z n;
     simulatedCount := inject_Z n;
     samplingRate := 1;
     matchedRule := "global" |}.

(** One hundred and twenty entries with raw counts 1 to 120. *)
Definition manyEntries : list BreakdownRow :=
  map (λ n, entry "db.query" (Z.of_nat n)) (seq 1 120).

(** Entries as the popup reads them, with an [op] and a [description]. *)
Definition labelled (op description : string) (n : Z) : BreakdownRow :=
  {| row_item :=
       {| attrs := {[ "op" := op; "description" := description ]};
          count := Some (inject_Z n) |};
     rawCount := inject_Z n;
     simulatedCount := inject_Z n;
     samplingRate := 1;
     matchedRule := "global" |}.

Definition labelledEntries : list BreakdownRow :=
  [ labelled "db" "SELECT 1" 5; labelled "http" "(no description)" 9 ].

Definition fewEntries : list BreakdownRow :=
  [ entry "http.server" 5; entry "db.query" 9; entry "cache.get" 7 ].

(** The view of a page that has just been loaded. *)
Definition freshView : App.View :=
  {| App.breakdownData := [];
     App.filteredBreakdownData := [];
     App.currentPage := 1;
     App.container := [];
     App.emptyNote := None;
     App.breakdownSearch := "";
     App.paginationDisplay := "none";
     App.prevDisabled := false;
     App.nextDisabled := false;
     App.pageInfo := (0, 0, 0)%Z |}.

Definition plainFixed (digits : nat) (x : Q) : string := "x".

(** A stand-in for the rounding of a result, for numbers that need none. *)
Definition unrounded (x : Q) : Q := x.

(** A stand-in for [parseInt] on numbers: the whole part. *)
Definition wholePart (v : JSValue) : option Z :=
  match v with
  | JNumber q => Some (Z.quot (Qnum q) (Z.pos (Qden q)))
  | _ => None
  end.

Definition rateRows : list (gmap string JSValue) :=
  [ {[ "span.op" := JString "db"; "count(span.duration)" := JNumber 30;
       "client_sample_rate" := JNumber 1 ]};
    {[ "span.op" := JString "http"; "count()" := JNumber 70 ]};
    {[ "span.op" := JString "idle"; "count()" := JNumber 0 ]} ].

End UISamples.

(** ** Properties of the string primitives *)

Section StringFacts.

Lemma trimStart_allWhiteSpace s : allWhiteSpace s = true → JS.trimStart s = "".
Proof.
  induction s as [|c s IH]; simpl; [done|].
  intros [Hc Hs]%andb_true_iff. rewrite Hc. auto.
Qed.

Lemma trim_allWhiteSpace s : allWhiteSpace s = true → JS.trim s = "".
Proof. intros H. unfold JS.trim. by rewrite trimStart_allWhiteSpace. Qed.

Lemma includes_empty s : JS.includes s "" = true.
Proof. by destruct s. Qed.

Lemma truthy_false o : JS.truthy o = false ↔ o = None ∨ o = Some "".
Proof.
  destruct o as [[|c s]|]; simpl; split; intros H; try done; auto;
    destruct H as [H|H]; discriminate H.
Qed.

Lemma truthy_true o : JS.truthy o = true ↔ ∃ s, o = Some s ∧ s ≠ "".
Proof.
  destruct o as [[|c s]|]; simpl; split; try done.
  - intros (s & [= <-] & Hs). done.
  - intros _. by eexists.
  - intros (s & [=] & _).
Qed.

Lemma or_else_empty o : JS.or_else o "" = "" ↔ o = None ∨ o = Some "".
Proof.
  destruct o as [[|c s]|]; simpl; split; intros H; try done; auto;
    destruct H as [H|H]; discriminate H.
Qed.

End StringFacts.

(** ** Properties of the rule ordering *)

Section SortFacts.

Lemma sort_insert_equals x l :
  is_equals x = true → JS.sort_insert compareRules x l = x :: l.
Proof.
  intros Hx. destruct l as [|y l]; simpl; [done|].
  unfold compareRules. rewrite Hx. by destruct (is_equals y).
Qed.

Lemma sort_insert_other x E N :
  is_equals x = false →
  Forall (λ r, is_equals r = true) E →
  Forall (λ r, is_equals r = false) N →
  JS.sort_insert compareRules x (E ++ N) = E ++ x :: N.
Proof.
  intros Hx HE HN. induction HE as [|y E Hy HE IH]; simpl.
  - destruct HN as [|y N Hy HN]; simpl; [done|].
    unfold compareRules. by rewrite Hx, Hy.
  - unfold compareRules at 1. rewrite Hx, Hy. simpl. by rewrite IH.
Qed.

(** The sorted list is the stable partition of the given one. *)
Lemma sortRules_partition rules :
  sortRules rules =
  List.filter is_equals rules ++ List.filter (λ r, negb (is_equals r)) rules.
Proof.
  unfold sortRules, JS.sort. induction rules as [|x rules IH]; simpl; [done|].
  rewrite IH. destruct (is_equals x) eqn:Hx; simpl.
  - by apply sort_insert_equals.
  - apply sort_insert_other; [done| |];
      apply Forall_forall; intros r [_ Hr]%list_elem_of_In%filter_In; [done|].
      by apply negb_true_iff.
Qed.

End SortFacts.

(** ** Properties of the simulation loop *)

Section LoopFacts.

Variable re : string → JS.completion (string → bool).
Variable fmt : Q → string.

Lemma firstMatch_find item sortedRules g :
  firstMatch re item sortedRules (None, g) =
  match List.find (matchesRule re item) sortedRules with
  | Some rule => (Some rule, rate rule / 100)
  | None => (None, g)
  end.
Proof.
  induction sortedRules as [|rule rest IH]; simpl; [done|].
  by destruct (matchesRule re item rule).
Qed.

Lemma groupRow_fields sortedRules e g item :
  let row := groupRow re sortedRules e g item in
  row_item row = item ∧
  rawCount row = count_or_0 item ∧
  samplingRate row = chosenRate (matchesRule re item) sortedRules g ∧
  simulatedCount row = count_or_0 item * samplingRate row * e ∧
  matchedRule row = ruleLabel (List.find (matchesRule re item) sortedRules).
Proof.
  unfold groupRow, chosenRate. rewrite firstMatch_find.
  by destruct (List.find _ _).
Qed.

(** The [forEach] loop pushes one entry per group, in order, and adds the
    entries' simulated counts to the total one after the other. *)
Lemma fold_processGroup sortedRules e g gs st :
  fold_left (processGroup re sortedRules e g) gs st =
  {| acc_breakdown := acc_breakdown st ++ map (groupRow re sortedRules e g) gs;
     acc_total :=
       fold_left Qplus (map simulatedCount (map (groupRow re sortedRules e g) gs))
         (acc_total st) |}.
Proof.
  revert st. induction gs as [|item gs IH]; intros st; simpl.
  - rewrite app_nil_r. by destruct st.
  - rewrite IH. simpl. by rewrite <- app_assoc.
Qed.

Lemma simulateSampling_nonempty rawData rules e g days :
  groups rawData ≠ [] →
  let total := resolvedTotal rawData in
  let missing := total - groupSum (groups rawData) in
  let rows := map (groupRow re (sortRules rules) e g) (groups rawData) in
  let base := runningTotal (map simulatedCount rows) in
  let ts := if Qlt_le_dec 0 missing then base + missing * g * e else base in
  simulateSampling re fmt rawData rules e g days =
  {| totalRawCount := total;
     totalSimulatedCount := ts;
     breakdown :=
       rows ++ (if Qlt_le_dec 0 missing
                then [otherRow fmt missing (missing * g * e) g] else []);
     costReduction :=
       Qmax 0 (if Qlt_le_dec 0 total then (total - ts) / total * 100 else 0);
     monthlyRawCount := total * (30 / days);
     monthlySimulatedCount := ts * (30 / days) |}.
Proof.
  intros Hne. unfold simulateSampling, resolvedTotal, groupSum, runningTotal.
  destruct (groups rawData) as [|item gs] eqn:Hgs; [done|].
  rewrite fold_processGroup. cbv zeta.
  destruct (Qlt_le_dec 0 _); simpl; [done|].
  by rewrite app_nil_r.
Qed.

(** The entry at a group's position is the one built for that group. *)
Lemma breakdown_lookup rawData rules e g days i item :
  groups rawData !! i = Some item →
  breakdown (simulateSampling re fmt rawData rules e g days) !! i =
  Some (groupRow re (sortRules rules) e g item).
Proof.
  intros Hi.
  assert (Hne : groups rawData ≠ []) by (intros Hnil; by rewrite Hnil in Hi).
  rewrite (simulateSampling_nonempty _ _ _ _ _ Hne). simpl.
  apply lookup_app_l_Some. by rewrite list_lookup_fmap, Hi.
Qed.

(** Only the entries built for the groups depend on the rule list. *)
Lemma simulateSampling_rules_ext rawData rules rules' e g days :
  (∀ item, groupRow re (sortRules rules) e g item =
           groupRow re (sortRules rules') e g item) →
  simulateSampling re fmt rawData rules e g days =
  simulateSampling re fmt rawData rules' e g days.
Proof.
  intros Hrow.
  destruct (decide (groups rawData = [])) as [Hnil|Hne].
  { unfold simulateSampling. by rewrite Hnil. }
  rewrite !(simulateSampling_nonempty _ _ _ _ _ Hne).
  by rewrite (map_ext _ _ Hrow).
Qed.

Lemma firstMatch_skip item rule before after st :
  matchesRule re item rule = false →
  firstMatch re item (before ++ rule :: after) st =
  firstMatch re item (before ++ after) st.
Proof.
  intros Hno. induction before as [|r before IH]; simpl.
  - by rewrite Hno.
  - by rewrite IH.
Qed.

Lemma find_app {A} (f : A → bool) (l1 l2 : list A) :
  List.find f (l1 ++ l2) =
  match List.find f l1 with
  | Some x => Some x
  | None => List.find f l2
  end.
Proof.
  induction l1 as [|x l1 IH]; simpl; [done|]. by destruct (f x).
Qed.

(** When some element satisfies the test, [find] returns one. *)
Lemma find_first_exists {A} (f : A → bool) (l : list A) x :
  x ∈ l → f x = true →
  ∃ y, List.find f l = Some y ∧ y ∈ l ∧ f y = true.
Proof.
  intros Hx Hfx. destruct (List.find f l) as [y|] eqn:Hfind.
  - apply find_some in Hfind as [Hy Hfy]. exists y.
    by rewrite list_elem_of_In.
  - apply list_elem_of_In in Hx.
    pose proof (find_none f l Hfind x Hx). congruence.
Qed.

Lemma elem_of_sortRules rule rules : rule ∈ sortRules rules ↔ rule ∈ rules.
Proof.
  rewrite sortRules_partition, elem_of_app, !list_elem_of_In, !filter_In.
  destruct (is_equals rule); simpl; intuition congruence.
Qed.

(** With a matching exact-match rule in the list, the first match of the
    sorted list is the first matching exact-match rule. *)
Lemma find_sortRules_equals item rules rule :
  rule ∈ rules → is_equals rule = true → matchesRule re item rule = true →
  ∃ applied,
    List.find (matchesRule re item) (sortRules rules) = Some applied ∧
    List.find (matchesRule re item) (List.filter is_equals rules) = Some applied ∧
    applied ∈ rules ∧ is_equals applied = true ∧
    matchesRule re item applied = true.
Proof.
  intros Hin Heq Hm.
  destruct (find_first_exists (matchesRule re item)
              (List.filter is_equals rules) rule) as (y & Hfind & Hy & Hmy);
    [|done|].
  { apply list_elem_of_In, filter_In. by rewrite <- list_elem_of_In. }
  exists y. rewrite sortRules_partition, find_app, Hfind.
  apply list_elem_of_In, filter_In in Hy as [Hy Hyeq].
  by rewrite list_elem_of_In.
Qed.

(** *** Rules that differ in their rate only *)

Lemma rateRaised_refl r : rateRaised r r.
Proof. unfold rateRaised. repeat split. apply Qle_refl. Qed.

Lemma rateRaised_is_equals r r' : rateRaised r r' → is_equals r' = is_equals r.
Proof. intros (_ & Hop & _). unfold is_equals. by rewrite Hop. Qed.

Lemma rateRaised_matchesRule item r r' :
  rateRaised r r' → matchesRule re item r' = matchesRule re item r.
Proof. intros (Ha & Hop & Hv & _). unfold matchesRule. by rewrite Ha, Hop, Hv. Qed.

Lemma rateRaised_filter (f : Rule → bool) l l' :
  (∀ r r', rateRaised r r' → f r' = f r) →
  Forall2 rateRaised l l' →
  Forall2 rateRaised (List.filter f l) (List.filter f l').
Proof.
  intros Hf H. induction H as [|r r' l l' Hr H IH]; simpl; [constructor|].
  rewrite (Hf _ _ Hr). destruct (f r); [by constructor|done].
Qed.

Lemma rateRaised_sortRules l l' :
  Forall2 rateRaised l l' → Forall2 rateRaised (sortRules l) (sortRules l').
Proof.
  intros H. rewrite !sortRules_partition.
  apply Forall2_app; apply rateRaised_filter; try done.
  - apply rateRaised_is_equals.
  - intros r r' Hr. by rewrite (rateRaised_is_equals _ _ Hr).
Qed.

Lemma firstMatch_rate_mono item s s' g :
  Forall2 rateRaised s s' →
  (firstMatch re item s (None, g)).2 <= (firstMatch re item s' (None, g)).2.
Proof.
  intros H. induction H as [|r r' s s' Hr H IH]; simpl; [apply Qle_refl|].
  rewrite (rateRaised_matchesRule item _ _ Hr).
  destruct (matchesRule re item r); simpl; [|done].
  destruct Hr as (_ & _ & _ & Hrate). unfold Qdiv.
  apply Qmult_le_compat_r; [done|]. by compute.
Qed.

Lemma groupRow_simulatedCount s e g item :
  simulatedCount (groupRow re s e g item) =
  count_or_0 item * (firstMatch re item s (None, g)).2 * e.
Proof. unfold groupRow. by destruct (firstMatch re item s (None, g)). Qed.

Lemma fold_Qplus_mono xs ys a b :
  Forall2 Qle xs ys → a <= b → fold_left Qplus xs a <= fold_left Qplus ys b.
Proof.
  intros H. revert a b. induction H as [|x y xs ys Hxy H IH]; simpl; [done|].
  intros a b Hab. apply IH. by apply Qplus_le_compat.
Qed.

Lemma groupRows_mono gs s s' e g :
  Forall (λ item, 0 <= count_or_0 item) gs →
  0 <= e →
  Forall2 rateRaised s s' →
  Forall2 Qle (map simulatedCount (map (groupRow re s e g) gs))
              (map simulatedCount (map (groupRow re s' e g) gs)).
Proof.
  intros Hcount He Hs.
  induction Hcount as [|item gs Hitem Hcount IH]; simpl; [constructor|].
  constructor; [|done].
  rewrite !groupRow_simulatedCount.
  apply Qmult_le_compat_r; [|done].
  rewrite !(Qmult_comm (count_or_0 item)).
  apply Qmult_le_compat_r; [|done].
  by apply firstMatch_rate_mono.
Qed.

(** Raising rates rule by rule never lowers the total. *)
Lemma totalSimulatedCount_mono rawData rules rules' e g days :
  Forall (λ item, 0 <= count_or_0 item) (groups rawData) →
  0 <= e →
  Forall2 rateRaised rules rules' →
  totalSimulatedCount (simulateSampling re fmt rawData rules e g days) <=
  totalSimulatedCount (simulateSampling re fmt rawData rules' e g days).
Proof.
  intros Hcount He Hrules.
  destruct (decide (groups rawData = [])) as [Hnil|Hne].
  { unfold simulateSampling. rewrite Hnil. simpl. apply Qle_refl. }
  rewrite !(simulateSampling_nonempty _ _ _ _ _ Hne). simpl.
  assert (Hbase :
    runningTotal (map simulatedCount
      (map (groupRow re (sortRules rules) e g) (groups rawData))) <=
    runningTotal (map simulatedCount
      (map (groupRow re (sortRules rules') e g) (groups rawData)))).
  { apply fold_Qplus_mono; [|apply Qle_refl].
    apply groupRows_mono; [done..|]. by apply rateRaised_sortRules. }
  destruct (Qlt_le_dec 0 _); [|done].
  apply Qplus_le_compat; [done|apply Qle_refl].
Qed.

End LoopFacts.

(** ** The specification's claims *)

Section Claims.

Variable re : string → JS.completion (string → bool).
Variable fmt : Q → string.

(** C1. Groups are processed in dataset order; each group takes the rate of
    the first rule of the pre-sorted list that matches it (that rule's rate
    divided by 100), or the global rate when none matches; its simulated
    count is the group's count (0 when the group has none) * samplingRate *
    expansionFactor; one entry is emitted
    per group, matched or not, at the group's position; and the total
    simulated count is the running sum of the emitted simulated counts. *)
Theorem simulateSampling_first_match_per_group rawData rules e g days :
  let r := simulateSampling re fmt rawData rules e g days in
  let gs := groups rawData in
  Forall2
    (λ item row,
       let groupCount := match count item with Some c => c | None => 0 end in
       row_item row = item ∧
       rawCount row = groupCount ∧
       samplingRate row = chosenRate (matchesRule re item) (sortRules rules) g ∧
       simulatedCount row = groupCount * samplingRate row * e ∧
       matchedRule row = ruleLabel (List.find (matchesRule re item) (sortRules rules)))
    gs (take (length gs) (breakdown r)) ∧
  (length gs ≤ length (breakdown r) ≤ S (length gs))%nat ∧
  totalSimulatedCount r = runningTotal (map simulatedCount (breakdown r)).
Proof.
  intros r gs. subst r gs.
  destruct (decide (groups rawData = [])) as [Hnil|Hne].
  { unfold simulateSampling. rewrite Hnil. simpl.
    split; [constructor|]. split; [lia|done]. }
  rewrite (simulateSampling_nonempty re fmt _ _ _ _ _ Hne). simpl.
  set (rows := map (groupRow re (sortRules rules) e g) (groups rawData)).
  assert (Hlen : length rows = length (groups rawData))
    by (subst rows; apply length_map).
  split; [|split].
  - rewrite <- Hlen, take_app_length. subst rows.
    clear. induction (groups rawData) as [|item gs IH]; simpl; constructor; [|done].
    apply groupRow_fields.
  - rewrite length_app, Hlen. destruct (Qlt_le_dec 0 _); simpl; lia.
  - unfold runningTotal. rewrite map_app, fold_left_app.
    by destruct (Qlt_le_dec 0 _).
Qed.

(** C3. For a non-empty dataset the total raw count is the declared total
    when one is supplied (even a smaller one) and the sum of the group
    counts otherwise.  With missing = total raw count - sum of counts: when
    missing > 0 exactly one "(other)" entry follows the group entries, with
    rawCount = missing, samplingRate = globalRate, simulatedCount =
    missing * globalRate * expansionFactor and label "global", and its
    simulated count is added to the total; when missing <= 0 the entries
    are the group entries alone and the total is their running sum. *)
Theorem simulateSampling_reconciliation rawData rules e g days :
  groups rawData ≠ [] →
  let r := simulateSampling re fmt rawData rules e g days in
  let missing := totalRawCount r - groupSum (groups rawData) in
  (∀ total, totalCountFromMeta rawData = Some total → totalRawCount r = total) ∧
  (totalCountFromMeta rawData = None →
     totalRawCount r = groupSum (groups rawData)) ∧
  (0 < missing →
     ∃ rows other,
       breakdown r = rows ++ [other] ∧
       map row_item rows = groups rawData ∧
       attrs (row_item other) !! "span.op" = Some "(other)" ∧
       rawCount other = missing ∧
       samplingRate other = g ∧
       simulatedCount other = missing * g * e ∧
       matchedRule other = "global" ∧
       totalSimulatedCount r =
         runningTotal (map simulatedCount rows) + simulatedCount other) ∧
  (missing <= 0 →
     map row_item (breakdown r) = groups rawData ∧
     totalSimulatedCount r = runningTotal (map simulatedCount (breakdown r))).
Proof.
  intros Hne r missing. subst r missing.
  rewrite (simulateSampling_nonempty re fmt _ _ _ _ _ Hne). simpl.
  set (missing := resolvedTotal rawData - groupSum (groups rawData)).
  set (rows := map (groupRow re (sortRules rules) e g) (groups rawData)).
  assert (Hitems : map row_item rows = groups rawData).
  { subst rows. rewrite map_map. clear.
    induction (groups rawData) as [|item gs IH]; simpl; [done|].
    f_equal; [|done]. apply groupRow_fields. }
  unfold resolvedTotal in *.
  split; [|split; [|split]].
  - by intros total ->.
  - by intros ->.
  - intros Hpos. destruct (Qlt_le_dec 0 missing) as [_|Hle].
    + by exists rows, (otherRow fmt missing (missing * g * e) g).
    + exfalso. exact (Qlt_not_le _ _ Hpos Hle).
  - intros Hle. destruct (Qlt_le_dec 0 missing) as [Hpos|_].
    + exfalso. exact (Qlt_not_le _ _ Hpos Hle).
    + by rewrite app_nil_r.
Qed.

(** C8. On a dataset with no groups and no declared total the result has
    zero totals, zero cost reduction, zero monthly projections and an empty
    breakdown, whatever the rules and the scalar settings. *)
Theorem simulateSampling_empty_dataset rules e g days :
  simulateSampling re fmt {| groups := []; totalCountFromMeta := None |}
    rules e g days =
  {| totalRawCount := 0;
     totalSimulatedCount := 0;
     breakdown := [];
     costReduction := 0;
     monthlyRawCount := 0;
     monthlySimulatedCount := 0 |}.
Proof. reflexivity. Qed.

(** C4. For a non-empty dataset the cost-reduction percentage is
    max(0, (totalRawCount - totalSimulatedCount) / totalRawCount * 100)
    when totalRawCount > 0 and 0 otherwise; it is never negative, and it is
    zero whenever the simulated volume exceeds the raw volume. *)
Theorem costReduction_clamped rawData rules e g days :
  groups rawData ≠ [] →
  let r := simulateSampling re fmt rawData rules e g days in
  let raw := totalRawCount r in
  let sim := totalSimulatedCount r in
  (0 < raw → costReduction r = Qmax 0 ((raw - sim) / raw * 100)) ∧
  (raw <= 0 → costReduction r = 0) ∧
  0 <= costReduction r ∧
  (raw < sim → costReduction r == 0).
Proof.
  intros Hne r raw sim. subst r raw sim.
  rewrite (simulateSampling_nonempty re fmt _ _ _ _ _ Hne). simpl.
  set (raw := resolvedTotal rawData).
  set (sim := if Qlt_le_dec 0 (raw - _) then _ else _).
  split; [|split; [|split]].
  - intros Hpos. destruct (Qlt_le_dec 0 raw) as [_|Hle]; [done|].
    exfalso. exact (Qlt_not_le _ _ Hpos Hle).
  - intros Hle. destruct (Qlt_le_dec 0 raw) as [Hpos|_]; [|done].
    exfalso. exact (Qlt_not_le _ _ Hpos Hle).
  - apply Q.le_max_l.
  - intros Hlt. apply Q.max_l.
    destruct (Qlt_le_dec 0 raw) as [Hpos|_]; [|apply Qle_refl].
    assert (Hinv : 0 < / raw) by by apply Qinv_lt_0_compat.
    unfold Qdiv. set (k := / raw) in *. clearbody k sim raw.
    assert (Hprod : 0 <= (sim - raw) * k)
      by (apply Qmult_le_0_compat; lra).
    lra.
Qed.

(** C7. For a period of a positive whole number of days the monthly raw
    and simulated counts are the totals multiplied by 30 / periodDays; a
    7-day period with a total raw count of 700 projects to 3000. *)
Theorem monthly_projection_linear rawData rules e g (periodDays : positive) :
  let days := inject_Z (Z.pos periodDays) in
  let r := simulateSampling re fmt rawData rules e g days in
  monthlyRawCount r == totalRawCount r * (30 / days) ∧
  monthlySimulatedCount r == totalSimulatedCount r * (30 / days) ∧
  (periodDays = 7%positive → totalRawCount r == 700 → monthlyRawCount r == 3000).
Proof.
  intros days r.
  assert (Hraw : monthlyRawCount r == totalRawCount r * (30 / days)).
  { subst r. unfold simulateSampling.
    destruct (groups rawData); simpl; [ring|reflexivity]. }
  split; [exact Hraw|]. split.
  - subst r. unfold simulateSampling.
    destruct (groups rawData); simpl; [ring|reflexivity].
  - intros Hdays Htotal. rewrite Hraw, Htotal. subst days. by rewrite Hdays.
Qed.

(** C5. The matcher answers false when the rule's attribute is empty or
    missing, when the rule's value is empty or missing, or when the rule's
    attribute is one of the attribute names of the data model and the
    record's value for it is empty or absent. *)
Theorem matchesRule_early_exit item rule :
  (attribute rule = None ∨ attribute rule = Some "") ∨
  (value rule = None ∨ value rule = Some "") ∨
  (∃ a, attribute rule = Some a ∧ a ∈ spanAttributes ∧
        (attrs item !! a = None ∨ attrs item !! a = Some "")) →
  matchesRule re item rule = false.
Proof.
  intros H. unfold matchesRule.
  destruct (JS.truthy (attribute rule)) eqn:Hattr; simpl; [|done].
  destruct (JS.truthy (value rule)) eqn:Hval; simpl; [|done].
  destruct H as [H|[H|(a & Ha & _ & H)]].
  - apply truthy_false in H. congruence.
  - apply truthy_false in H. congruence.
  - rewrite Ha. simpl. unfold item_get.
    apply or_else_empty in H. by rewrite H.
Qed.

(** C10. A rule with the contains operator (or an unrecognised one), a
    non-empty attribute and a non-empty value made of white space only
    matches every record whose value for that attribute is non-empty; in a
    simulation that has the rule in its list, the entry of every such group
    carries the rate and the label of a matching rule, not the global
    ones. *)
Theorem whitespace_value_matches_everything item rule a v :
  attribute rule = Some a → a ≠ "" →
  value rule = Some v → v ≠ "" → allWhiteSpace v = true →
  let op := JS.or_else (operator rule) "contains" in
  op ≠ "equals" → op ≠ "starts_with" → op ≠ "ends_with" → op ≠ "regex" →
  (∃ s, attrs item !! a = Some s ∧ s ≠ "") →
  matchesRule re item rule = true ∧
  ∀ rawData rules e g days i,
    groups rawData !! i = Some item → rule ∈ rules →
    ∃ row applied,
      breakdown (simulateSampling re fmt rawData rules e g days) !! i = Some row ∧
      applied ∈ rules ∧ matchesRule re item applied = true ∧
      samplingRate row = rate applied / 100 ∧
      matchedRule row = ruleLabel (Some applied).
Proof.
  intros Ha Hane Hv Hvne Hws op Hop1 Hop2 Hop3 Hop4 (s & Hs & Hsne).
  assert (Hm : matchesRule re item rule = true).
  { unfold matchesRule. rewrite Ha, Hv. simpl.
    destruct a as [|c a]; [done|]. destruct v as [|d v]; [done|]. simpl.
    unfold item_get. rewrite Hs. destruct s as [|c' s]; [done|]. simpl.
    fold op. rewrite (trim_allWhiteSpace _ Hws).
    apply String.eqb_neq in Hop1, Hop2, Hop3, Hop4.
    rewrite Hop1, Hop2, Hop3, Hop4.
    change (JS.toLowerCase "") with "". rewrite includes_empty.
    by destruct (String.eqb op "contains"). }
  split; [done|].
  intros rawData rules e g days i Hi Hin.
  destruct (find_first_exists (matchesRule re item) (sortRules rules) rule)
    as (applied & Hfind & Happlied & Hmatch); [by apply elem_of_sortRules|done|].
  exists (groupRow re (sortRules rules) e g item), applied.
  split; [by apply breakdown_lookup|].
  split; [by apply elem_of_sortRules|]. split; [done|].
  destruct (groupRow_fields re (sortRules rules) e g item)
    as (_ & _ & Hrate & _ & Hlabel).
  unfold chosenRate in Hrate. by rewrite Hfind in Hrate, Hlabel.
Qed.

(** C2. The rule list is stably partitioned before use: the rules whose
    operator is equals come first, in their original order, followed by
    the other rules in their original order.  Hence a record matched by an
    equals rule of the list is given the first matching equals rule of the
    original list, whatever other rules match it and wherever they
    stand; when only one equals rule matches, that rule is applied. *)
Theorem sortRules_equals_first rules :
  sortRules rules =
    List.filter is_equals rules ++ List.filter (λ r, negb (is_equals r)) rules ∧
  ∀ rawData e g days i item exact,
    groups rawData !! i = Some item →
    exact ∈ rules → operator exact = Some "equals" →
    matchesRule re item exact = true →
    ∃ row applied,
      breakdown (simulateSampling re fmt rawData rules e g days) !! i = Some row ∧
      List.find (matchesRule re item) (List.filter is_equals rules) = Some applied ∧
      operator applied = Some "equals" ∧
      samplingRate row = rate applied / 100 ∧
      matchedRule row = ruleLabel (Some applied) ∧
      ((∀ other, other ∈ rules → operator other = Some "equals" →
                 matchesRule re item other = true → other = exact) →
       applied = exact).
Proof.
  split; [apply sortRules_partition|].
  intros rawData e g days i item exact Hi Hin Hop Hm.
  destruct (find_sortRules_equals re item rules exact)
    as (applied & Hfind & Hfirst & Happlied & Heq & Hmatch);
    [done|by apply bool_decide_eq_true|done|].
  apply bool_decide_eq_true in Heq.
  exists (groupRow re (sortRules rules) e g item), applied.
  split; [by apply breakdown_lookup|]. split; [done|]. split; [done|].
  destruct (groupRow_fields re (sortRules rules) e g item)
    as (_ & _ & Hrate & _ & Hlabel).
  unfold chosenRate in Hrate. rewrite Hfind in Hrate, Hlabel.
  split; [done|]. split; [done|]. intros Huniq. by apply Huniq.
Qed.

(** C6. A regex rule whose pattern the expression constructor rejects
    matches no record: the thrown error is caught inside the matcher and
    the answer is false.  The simulation is the one obtained without that
    rule, so the other rules and all groups are evaluated as usual. *)
Theorem invalid_regex_is_no_match rule err :
  operator rule = Some "regex" →
  re (JS.trim (JS.toString (value rule))) = JS.Throw err →
  (∀ item, matchesRule re item rule = false) ∧
  ∀ rawData before after e g days,
    simulateSampling re fmt rawData (before ++ rule :: after) e g days =
    simulateSampling re fmt rawData (before ++ after) e g days.
Proof.
  intros Hop Hre.
  assert (Hno : ∀ item, matchesRule re item rule = false).
  { intros item. unfold matchesRule. rewrite Hop, Hre. simpl.
    destruct (negb _ || negb _); [done|]. by destruct (negb _). }
  split; [done|].
  intros rawData before after e g days.
  apply simulateSampling_rules_ext. intros item.
  assert (Hneq : is_equals rule = false).
  { unfold is_equals. rewrite Hop. by apply bool_decide_eq_false. }
  unfold groupRow. rewrite !sortRules_partition, !List.filter_app. simpl.
  rewrite Hneq. simpl.
  by rewrite !app_assoc, firstMatch_skip.
Qed.

(** C9, amended. For group counts that are not negative and an expansion
    factor that is not negative, raising the rate of one rule of the list
    and leaving everything else as it is never lowers the total simulated
    count. *)
Theorem raising_a_rate_never_lowers_total
    rawData before rule rule' after e g days :
  Forall (λ item, 0 <= count_or_0 item) (groups rawData) →
  0 <= e →
  rateRaised rule rule' →
  totalSimulatedCount
    (simulateSampling re fmt rawData (before ++ rule :: after) e g days) <=
  totalSimulatedCount
    (simulateSampling re fmt rawData (before ++ rule' :: after) e g days).
Proof.
  intros Hcount He Hrule. apply totalSimulatedCount_mono; [done..|].
  apply Forall2_app; [|constructor; [done|]];
    apply Forall_Forall2_diag, Forall_forall; intros; apply rateRaised_refl.
Qed.

End Claims.

(** ** The statements at concrete inputs *)

Section Instances.

Import Samples.

(** The end-to-end scenario of the specification: 1000 unmatched spans and
    500 spans sampled at 10% give 1050 simulated spans out of 1500 and a
    cost reduction of 30%. *)
Example end_to_end_scenario :
  let r := simulate twoGroups [rule "equals" "db.query" 10] 1 1 30 in
  totalRawCount r == 1500 ∧ totalSimulatedCount r == 1050 ∧
  map simulatedCount (breakdown r) = [1000 * 1 * 1; 500 * (10 / 100) * 1] ∧
  map matchedRule (breakdown r) = ["global"; "span.op:db.query"] ∧
  costReduction r == 30.
Proof. by vm_compute. Qed.

(** A declared total of 1000 over one group of 700 adds one entry for the
    300 spans that are not listed. *)
Lemma simulateSampling_reconciliation_witness :
  let r := simulate capped [] 1 1 30 in
  groups capped ≠ [] ∧
  0 < totalRawCount r - groupSum (groups capped) ∧
  totalRawCount r = 1000 ∧
  ∃ rows other,
    breakdown r = rows ++ [other] ∧ map row_item rows = groups capped ∧
    rawCount other == 300 ∧ matchedRule other = "global".
Proof.
  intros r.
  assert (Hne : groups capped ≠ []) by done.
  assert (Hpos : 0 < totalRawCount r - groupSum (groups capped)) by done.
  destruct (simulateSampling_reconciliation literalRegExp plainFormat
              capped [] 1 1 30 Hne) as (Hdeclared & _ & Hmissing & _).
  split; [done|]. split; [done|]. split; [by apply Hdeclared|].
  destruct (Hmissing Hpos) as (rows & other & Hrows & Hitems & _ & Hraw & _ & _ & Hlabel & _).
  exists rows, other. split; [done|]. split; [done|].
  split; [|done]. by rewrite Hraw.
Defined.

(** An expansion factor of 5 at a global rate of 100% simulates 500 spans
    from 100: the cost reduction is 0. *)
Lemma costReduction_clamped_witness :
  let r := simulate oneGroup [] 5 1 30 in
  groups oneGroup ≠ [] ∧
  totalRawCount r < totalSimulatedCount r ∧
  costReduction r == 0.
Proof.
  intros r.
  assert (Hne : groups oneGroup ≠ []) by done.
  assert (Hlt : totalRawCount r < totalSimulatedCount r) by done.
  destruct (costReduction_clamped literalRegExp plainFormat
              oneGroup [] 5 1 30 Hne) as (_ & _ & _ & Hclamp).
  split; [done|]. split; [done|]. by apply Hclamp.
Defined.

(** Seven days with 700 spans project to 3000 spans a month. *)
Lemma monthly_projection_linear_witness :
  let r := simulate oneWeek [] 1 1 (inject_Z 7) in
  totalRawCount r == 700 ∧ monthlyRawCount r == 3000.
Proof.
  intros r.
  assert (Htotal : totalRawCount r == 700) by done.
  destruct (monthly_projection_linear literalRegExp plainFormat
              oneWeek [] 1 1 7%positive) as (_ & _ & Hliteral).
  split; [done|]. by apply Hliteral.
Defined.

(** The group "db" carries no description: a rule on the description does
    not match it. *)
Lemma matchesRule_early_exit_witness :
  let onDescription :=
    {| attribute := Some "span.description"; operator := Some "contains";
       value := Some "db"; rate := 50 |} in
  "span.description" ∈ spanAttributes ∧
  attrs (group "db" 100) !! "span.description" = None ∧
  matchesRule literalRegExp (group "db" 100) onDescription = false.
Proof.
  intros onDescription.
  assert (Hname : "span.description" ∈ spanAttributes)
    by (apply list_elem_of_In; simpl; auto).
  assert (Habsent : attrs (group "db" 100) !! "span.description" = None)
    by by vm_compute.
  split; [done|]. split; [done|].
  apply matchesRule_early_exit. right. right.
  exists "span.description". split; [done|]. split; [done|]. by left.
Defined.

(** The scenario of two groups, one matched at 10%: each entry carries its
    group's own count and that count * rate * 1, and the total of 1050 is
    the running sum of the entries. *)
Lemma simulateSampling_first_match_per_group_witness :
  let r := simulate twoGroups [rule "equals" "db.query" 10] 1 1 30 in
  Forall2
    (λ item row,
       row_item row = item ∧
       Some (rawCount row) = count item ∧
       simulatedCount row = rawCount row * samplingRate row * 1)
    (groups twoGroups) (take 2 (breakdown r)) ∧
  totalSimulatedCount r = runningTotal (map simulatedCount (breakdown r)) ∧
  totalSimulatedCount r == 1050.
Proof.
  intros r.
  destruct (simulateSampling_first_match_per_group literalRegExp plainFormat
              twoGroups [rule "equals" "db.query" 10] 1 1 30)
    as (Hrows & _ & Htotal).
  change (simulateSampling literalRegExp plainFormat twoGroups
            [rule "equals" "db.query" 10] 1 1 30) with r in Hrows, Htotal.
  change (length (groups twoGroups)) with 2%nat in Hrows.
  assert (Hcounted : Forall (λ item, is_Some (count item)) (groups twoGroups))
    by (repeat constructor; by eexists).
  split; [|split].
  - revert Hcounted Hrows. generalize (groups twoGroups).
    generalize (take 2 (breakdown r)). intros rows gs Hcounted Hrows.
    induction Hrows as [|item row gs' rows' Hrow _ IH]; [constructor|].
    inversion Hcounted as [|? ? [c Hc] Hrest]; subst.
    constructor; [|by apply IH].
    destruct Hrow as (Hitem & Hraw & _ & Hsim & _). cbv zeta in Hraw, Hsim.
    rewrite Hc in Hraw, Hsim.
    split; [done|]. split; [by rewrite Hraw, Hc|]. by rewrite Hsim, Hraw.
  - exact Htotal.
  - rewrite Htotal. by vm_compute.
Defined.

(** A contains rule whose value is two spaces matches the group "db". *)
Lemma whitespace_value_matches_everything_witness :
  allWhiteSpace "  " = true ∧
  attrs (group "db" 100) !! "span.op" = Some "db" ∧
  matchesRule literalRegExp (group "db" 100) (rule "contains" "  " 50) = true.
Proof.
  assert (Hattr : attrs (group "db" 100) !! "span.op" = Some "db")
    by by vm_compute.
  split; [done|]. split; [done|].
  apply (whitespace_value_matches_everything literalRegExp plainFormat
           (group "db" 100) (rule "contains" "  " 50) "span.op" "  ");
    try done.
  by exists "db".
Defined.

(** Listed after a contains rule that also matches, the equals rule still
    decides the rate of the group "db.query". *)
Lemma sortRules_equals_first_witness :
  let rules := [rule "contains" "db" 100; rule "equals" "db.query" 10] in
  let exact := rule "equals" "db.query" 10 in
  let r := simulate twoGroups rules 1 1 30 in
  groups twoGroups !! 1%nat = Some (group "db.query" 500) ∧
  exact ∈ rules ∧
  matchesRule literalRegExp (group "db.query" 500) exact = true ∧
  ∃ row, breakdown r !! 1%nat = Some row ∧ samplingRate row = 10 / 100.
Proof.
  intros rules exact r.
  assert (Hi : groups twoGroups !! 1%nat = Some (group "db.query" 500)) by done.
  assert (Hin : exact ∈ rules) by (apply list_elem_of_In; simpl; auto).
  assert (Hm : matchesRule literalRegExp (group "db.query" 500) exact = true)
    by by vm_compute.
  split; [done|]. split; [done|]. split; [done|].
  destruct (sortRules_equals_first literalRegExp plainFormat rules) as [_ Hfirst].
  destruct (Hfirst twoGroups 1 1 30 1%nat _ exact Hi Hin eq_refl Hm)
    as (row & applied & Hrow & Hfind & _ & Hrate & _).
  exists row. split; [done|].
  assert (Happlied : Some applied = Some exact)
    by (rewrite <- Hfind; by vm_compute).
  injection Happlied as ->. exact Hrate.
Defined.

(** The pattern "(" is rejected: the rule matches nothing and can be
    left out of the list without changing the result. *)
Lemma invalid_regex_is_no_match_witness :
  let broken := rule "regex" "(" 10 in
  let other := rule "equals" "db.query" 10 in
  literalRegExp (JS.trim (JS.toString (value broken))) = JS.Throw "SyntaxError" ∧
  matchesRule literalRegExp (group "(" 1) broken = false ∧
  simulate twoGroups [broken; other] 1 1 30 = simulate twoGroups [other] 1 1 30.
Proof.
  intros broken other.
  assert (Hthrow : literalRegExp (JS.trim (JS.toString (value broken)))
                   = JS.Throw "SyntaxError") by done.
  destruct (invalid_regex_is_no_match literalRegExp plainFormat
              broken "SyntaxError" eq_refl Hthrow) as [Hno Hsame].
  split; [done|]. split; [apply Hno|].
  exact (Hsame twoGroups [] [other] 1 1 30).
Defined.

(** Raising a rate from 50 to 100 with an expansion factor of 1. *)
Lemma raising_a_rate_never_lowers_total_witness :
  let low := rule "contains" "db" 50 in
  let high := rule "contains" "db" 100 in
  Forall (λ item, 0 <= count_or_0 item) (groups oneGroup) ∧
  rateRaised low high ∧
  totalSimulatedCount (simulate oneGroup [low] 1 1 30) <=
  totalSimulatedCount (simulate oneGroup [high] 1 1 30).
Proof.
  intros low high.
  assert (Hcount : Forall (λ item, 0 <= count_or_0 item) (groups oneGroup)).
  { repeat constructor. by vm_compute. }
  assert (Hraised : rateRaised low high).
  { repeat split. by vm_compute. }
  split; [done|]. split; [done|].
  apply (raising_a_rate_never_lowers_total literalRegExp plainFormat
           oneGroup [] low high [] 1 1 30 Hcount); [by vm_compute|done].
Defined.

(** C9 as stated fails for a negative expansion factor: raising the rate
    of the only rule from 50 to 100 lowers the total from -50 to -100. *)
Lemma raising_a_rate_lowers_total_when_expansion_negative :
  let low := rule "contains" "db" 50 in
  let high := rule "contains" "db" 100 in
  rateRaised low high ∧
  totalSimulatedCount (simulate oneGroup [low] (-1) 1 30) == -50 ∧
  totalSimulatedCount (simulate oneGroup [high] (-1) 1 30) == -100 ∧
  ¬ (totalSimulatedCount (simulate oneGroup [low] (-1) 1 30) <=
     totalSimulatedCount (simulate oneGroup [high] (-1) 1 30)).
Proof.
  intros low high. split; [repeat split; by vm_compute|].
  split; [by vm_compute|]. split; [by vm_compute|].
  vm_compute. intros H. by apply H.
Qed.

End Instances.


(** ** Further properties of the string primitives *)

Section TrimAndCase.

Lemma isWhiteSpace_lowerChar c : JS.isWhiteSpace (JS.lowerChar c) = JS.isWhiteSpace c.
Proof. by destruct c as [[] [] [] [] [] [] [] []]. Qed.

Lemma lowerChar_idemp c : JS.lowerChar (JS.lowerChar c) = JS.lowerChar c.
Proof. by destruct c as [[] [] [] [] [] [] [] []]. Qed.

Lemma toLowerCase_idemp s : JS.toLowerCase (JS.toLowerCase s) = JS.toLowerCase s.
Proof. induction s as [|c s IH]; simpl; [done|]. by rewrite lowerChar_idemp, IH. Qed.

Lemma toLowerCase_empty s : JS.toLowerCase s = "" ↔ s = "".
Proof. by destruct s. Qed.

Lemma toLowerCase_trimStart s :
  JS.toLowerCase (JS.trimStart s) = JS.trimStart (JS.toLowerCase s).
Proof.
  induction s as [|c s IH]; simpl; [done|].
  rewrite isWhiteSpace_lowerChar. by destruct (JS.isWhiteSpace c).
Qed.

Lemma toLowerCase_trimEnd s :
  JS.toLowerCase (JS.trimEnd s) = JS.trimEnd (JS.toLowerCase s).
Proof.
  induction s as [|c s IH]; simpl; [done|].
  rewrite <- IH, isWhiteSpace_lowerChar.
  destruct (JS.trimEnd s); simpl; [|done]. by destruct (JS.isWhiteSpace c).
Qed.

(** Trimming and lower-casing commute. *)
Lemma toLowerCase_trim s : JS.toLowerCase (JS.trim s) = JS.trim (JS.toLowerCase s).
Proof. unfold JS.trim. by rewrite toLowerCase_trimEnd, toLowerCase_trimStart. Qed.

Lemma trimEnd_idemp s : JS.trimEnd (JS.trimEnd s) = JS.trimEnd s.
Proof.
  induction s as [|c s IH]; simpl; [done|].
  destruct (JS.trimEnd s) as [|d t] eqn:Ht.
  - destruct (JS.isWhiteSpace c) eqn:Hc; simpl; [done|]. by rewrite Hc.
  - simpl in *. by rewrite IH.
Qed.

Lemma trimEnd_cons c s :
  JS.isWhiteSpace c = false → JS.trimEnd (String c s) = String c (JS.trimEnd s).
Proof. intros Hc. simpl. rewrite Hc. by destruct (JS.trimEnd s). Qed.

Lemma trimStart_head s :
  JS.trimStart s = "" ∨
  ∃ c t, JS.trimStart s = String c t ∧ JS.isWhiteSpace c = false.
Proof.
  induction s as [|c s IH]; simpl; [by left|].
  destruct (JS.isWhiteSpace c) eqn:Hc; [done|]. right. by exists c, s.
Qed.

(** Trimming a trimmed string changes nothing. *)
Lemma trim_idemp s : JS.trim (JS.trim s) = JS.trim s.
Proof.
  unfold JS.trim. destruct (trimStart_head s) as [->|(c & t & -> & Hc)]; [done|].
  rewrite trimEnd_cons by done. simpl. rewrite Hc.
  rewrite <- trimEnd_cons by done. apply trimEnd_idemp.
Qed.

Lemma prefix_refl s : String.prefix s s = true.
Proof.
  induction s as [|c s IH]; simpl; [done|].
  by destruct (ascii_dec c c).
Qed.

Lemma startsWith_includes s t : JS.startsWith s t = true → JS.includes s t = true.
Proof. intros H. destruct s; cbn [JS.includes]; by rewrite H. Qed.

Lemma eqb_startsWith s t : String.eqb s t = true → JS.startsWith s t = true.
Proof. intros ->%String.eqb_eq. apply prefix_refl. Qed.

Lemma eqb_endsWith s t : String.eqb s t = true → JS.endsWith s t = true.
Proof. intros H. destruct s; cbn [JS.endsWith]; by rewrite H. Qed.

Lemma endsWith_includes s t : JS.endsWith s t = true → JS.includes s t = true.
Proof.
  induction s as [|c s IH]; cbn [JS.endsWith JS.includes].
  - rewrite !orb_false_r. apply eqb_startsWith.
  - intros [H|H]%orb_true_iff.
    + apply orb_true_iff. left. by apply eqb_startsWith.
    + apply orb_true_iff. right. by apply IH.
Qed.

End TrimAndCase.

(** ** Further properties of the rule matcher *)

Section MatcherProperties.

Variable re : string → JS.completion (string → bool).

Lemma truthy_Some_toLowerCase s :
  JS.truthy (Some (JS.toLowerCase s)) = JS.truthy (Some s).
Proof. by destruct s. Qed.

Lemma truthy_fmap_toLowerCase o :
  JS.truthy (JS.toLowerCase <$> o) = JS.truthy o.
Proof. destruct o as [s|]; [apply truthy_Some_toLowerCase|done]. Qed.

Lemma truthy_Some_eq s s' :
  JS.toLowerCase s' = JS.toLowerCase s → JS.truthy (Some s') = JS.truthy (Some s).
Proof.
  intros H. by rewrite <- (truthy_Some_toLowerCase s), <- (truthy_Some_toLowerCase s'), H.
Qed.

(** X1. For the four comparison operators the matcher ignores letter case,
    in the rule value and in the record: two rules with the same attribute
    and operator whose values agree up to case, tried on two records whose
    values for that attribute agree up to case, give the same answer. *)
Theorem matchesRule_ignores_case item item' rule rule' :
  attribute rule' = attribute rule →
  operator rule' = operator rule →
  JS.or_else (operator rule) "contains" ≠ "regex" →
  JS.toLowerCase <$> value rule' = JS.toLowerCase <$> value rule →
  (∀ a, attribute rule = Some a →
        JS.toLowerCase (item_get item' a) = JS.toLowerCase (item_get item a)) →
  matchesRule re item' rule' = matchesRule re item rule.
Proof.
  intros Hattr Hop Hnot Hval Hitem. unfold matchesRule.
  rewrite Hattr, Hop.
  assert (Htruthy : JS.truthy (value rule') = JS.truthy (value rule)).
  { by rewrite <- (truthy_fmap_toLowerCase (value rule)),
         <- (truthy_fmap_toLowerCase (value rule')), Hval. }
  rewrite Htruthy.
  destruct (JS.truthy (attribute rule)) eqn:Ha; [|done].
  destruct (JS.truthy (value rule)) eqn:Hv; [|done].
  cbn [negb orb].
  apply truthy_true in Ha as (a & Ha & _).
  destruct (value rule) as [v|], (value rule') as [v'|]; try done.
  injection Hval as Hval. rewrite Ha. cbn [JS.toString].
  rewrite (truthy_Some_eq _ _ (Hitem a Ha)), (Hitem a Ha).
  rewrite !toLowerCase_trim, Hval.
  apply String.eqb_neq in Hnot. by rewrite Hnot.
Qed.

(** X2. The comparison operators are ordered by strictness: on the same
    attribute and value, a record matched under equals is matched under
    starts_with and under ends_with, and a record matched under starts_with
    or ends_with is matched under contains. *)
Theorem operators_ordered_by_strictness item rule :
  (matchesRule re item (withOperator rule "equals") = true →
     matchesRule re item (withOperator rule "starts_with") = true ∧
     matchesRule re item (withOperator rule "ends_with") = true) ∧
  (matchesRule re item (withOperator rule "starts_with") = true →
     matchesRule re item (withOperator rule "contains") = true) ∧
  (matchesRule re item (withOperator rule "ends_with") = true →
     matchesRule re item (withOperator rule "contains") = true).
Proof.
  unfold matchesRule, withOperator. simpl.
  destruct (negb _ || negb _); [by repeat split|].
  destruct (negb _); [by repeat split|].
  split; [|split].
  - intros H. split; [by apply eqb_startsWith|by apply eqb_endsWith].
  - apply startsWith_includes.
  - apply endsWith_includes.
Qed.

(** X3. White space around the rule value is ignored once something is
    left of the value: the rule and the rule with its value trimmed match
    the same records, under every operator. *)
Theorem matchesRule_ignores_surrounding_space item rule v :
  value rule = Some v → JS.trim v ≠ "" →
  matchesRule re item (withValue rule (JS.trim v)) = matchesRule re item rule.
Proof.
  intros Hv Hne.
  assert (Htrim : JS.truthy (Some (JS.trim v)) = true)
    by by destruct (JS.trim v).
  assert (Hfull : JS.truthy (Some v) = true) by by destruct v.
  unfold matchesRule, withValue. cbn [attribute operator value].
  rewrite Hv. cbn [JS.toString].
  by rewrite trim_idemp, Htrim, Hfull.
Qed.

End MatcherProperties.

(** ** Properties of the active-rule filter and of the rule order *)

Section ActiveRules.

Variable re : string → JS.completion (string → bool).
Variable fmt : Q → string.

Lemma trimStart_empty_allWhiteSpace s : JS.trimStart s = "" → allWhiteSpace s = true.
Proof.
  induction s as [|c s IH]; simpl; [done|].
  destruct (JS.isWhiteSpace c); [done|discriminate].
Qed.

Lemma trim_empty_allWhiteSpace s : JS.trim s = "" → allWhiteSpace s = true.
Proof.
  unfold JS.trim. destruct (trimStart_head s) as [H|(c & t & H & Hc)].
  - intros _. by apply trimStart_empty_allWhiteSpace.
  - rewrite H, trimEnd_cons by done. discriminate.
Qed.

Lemma filter_filter_comm {A} (f g : A → bool) l :
  List.filter f (List.filter g l) = List.filter g (List.filter f l).
Proof.
  induction l as [|x l IH]; simpl; [done|].
  destruct (f x) eqn:Hf, (g x) eqn:Hg; simpl; rewrite ?Hf, ?Hg, IH; done.
Qed.

(** Sorting and filtering the rule list can be done in either order. *)
Lemma sortRules_filter keep rules :
  sortRules (List.filter keep rules) = List.filter keep (sortRules rules).
Proof.
  rewrite !sortRules_partition, List.filter_app.
  by rewrite !(filter_filter_comm keep).
Qed.

Lemma firstMatch_app item l1 l2 st :
  firstMatch re item (l1 ++ l2) st =
  firstMatch re item l1 (firstMatch re item l2 st).
Proof.
  induction l1 as [|r l1 IH]; simpl; [done|].
  by destruct (matchesRule re item r).
Qed.

Lemma firstMatch_none item l st :
  (∀ r, r ∈ l → matchesRule re item r = false) →
  firstMatch re item l st = st.
Proof.
  induction l as [|r l IH]; simpl; [done|]. intros H.
  rewrite (H r) by apply list_elem_of_here.
  apply IH. intros r' Hr'. apply H. by apply list_elem_of_further.
Qed.

(** Leaving out rules that the record does not match changes nothing. *)
Lemma firstMatch_filter item keep l st :
  (∀ r, r ∈ l → keep r = false → matchesRule re item r = false) →
  firstMatch re item (List.filter keep l) st = firstMatch re item l st.
Proof.
  induction l as [|r l IH]; simpl; [done|]. intros H.
  assert (IH' : firstMatch re item (List.filter keep l) st = firstMatch re item l st).
  { apply IH. intros r' Hr'. apply H. by apply list_elem_of_further. }
  destruct (keep r) eqn:Hk; simpl.
  - by rewrite IH'.
  - rewrite (H r) by (apply list_elem_of_here || done). done.
Qed.

Lemma isActive_false rule :
  isActive rule = false →
  (∀ item, matchesRule re item rule = false) ∨
  (∃ v, value rule = Some v ∧ v ≠ "" ∧ allWhiteSpace v = true).
Proof.
  unfold isActive. intros H.
  destruct (JS.truthy (value rule)) eqn:Hv.
  2:{ left. intros item. unfold matchesRule. rewrite Hv.
      by rewrite orb_true_r. }
  destruct (JS.truthy (attribute rule)) eqn:Ha.
  2:{ left. intros item. unfold matchesRule. by rewrite Ha. }
  right. apply truthy_true in Hv as (v & Hv & Hne). exists v.
  rewrite Hv in H. simpl in H. rewrite andb_true_r in H.
  apply negb_false_iff, String.eqb_eq in H.
  split; [done|]. split; [done|]. by apply trim_empty_allWhiteSpace.
Qed.

Lemma filter_all {A} (f : A → bool) l :
  (∀ x, x ∈ l → f x = true) → List.filter f l = l.
Proof.
  induction l as [|x l IH]; simpl; [done|]. intros H.
  rewrite (H x) by apply list_elem_of_here. f_equal.
  apply IH. intros y Hy. apply H. by apply list_elem_of_further.
Qed.

Lemma filter_none {A} (f : A → bool) l :
  (∀ x, x ∈ l → f x = false) → List.filter f l = [].
Proof.
  induction l as [|x l IH]; simpl; [done|]. intros H.
  rewrite (H x) by apply list_elem_of_here.
  apply IH. intros y Hy. apply H. by apply list_elem_of_further.
Qed.

(** A list that already has its exact-match rules in front is left as it
    is. *)
Lemma sortRules_fixed E N :
  (∀ r, r ∈ E → is_equals r = true) →
  (∀ r, r ∈ N → is_equals r = false) →
  sortRules (E ++ N) = E ++ N.
Proof.
  intros HE HN. rewrite sortRules_partition, !List.filter_app.
  rewrite (filter_all is_equals E HE), (filter_none is_equals N HN).
  rewrite (filter_none _ E), (filter_all _ N).
  - by rewrite app_nil_r.
  - intros r Hr. by rewrite (HN r Hr).
  - intros r Hr. by rewrite (HE r Hr).
Qed.

(** X4. Every rule that [getActiveRules] drops is either a rule that no
    record matches, or a rule whose non-empty value is white space only. *)
Theorem getActiveRules_drops_idle_or_blank rules rule :
  rule ∈ rules → rule ∉ getActiveRules rules →
  (∀ item, matchesRule re item rule = false) ∨
  (∃ v, value rule = Some v ∧ v ≠ "" ∧ allWhiteSpace v = true).
Proof.
  intros Hin Hout. apply isActive_false.
  destruct (isActive rule) eqn:Hact; [|done].
  exfalso. apply Hout. unfold getActiveRules.
  apply list_elem_of_In, filter_In. by rewrite <- list_elem_of_In.
Qed.

(** Leaving out rules that no record matches does not change the result. *)
Lemma simulateSampling_filter_idle keep rawData rules e g days :
  (∀ r, r ∈ rules → keep r = false → ∀ item, matchesRule re item r = false) →
  simulateSampling re fmt rawData (List.filter keep rules) e g days =
  simulateSampling re fmt rawData rules e g days.
Proof.
  intros Hidle. apply simulateSampling_rules_ext. intros item.
  unfold groupRow.
  rewrite sortRules_filter, firstMatch_filter; [done|].
  intros r Hr Hk. apply (proj1 (elem_of_sortRules _ _)) in Hr. by apply Hidle.
Qed.

(** A rule with a trimmed value that is not active matches no record. *)
Lemma isActive_false_trimmed r :
  (∀ v, value r = Some v → JS.trim v = v) →
  isActive r = false → ∀ item, matchesRule re item r = false.
Proof.
  intros Htrimmed Hk.
  destruct (isActive_false r Hk) as [Hidle|(v & Hv & Hne & Hws)]; [done|].
  specialize (Htrimmed v Hv).
  rewrite (trim_allWhiteSpace _ Hws) in Htrimmed. congruence.
Qed.

(** X5. When every rule value is already trimmed, as the synchronisation
    with the form leaves it, simulating with the active rules gives the
    result of simulating with the whole list. *)
Theorem getActiveRules_preserves_simulation rawData rules e g days :
  Forall (λ rule, ∀ v, value rule = Some v → JS.trim v = v) rules →
  simulateSampling re fmt rawData (getActiveRules rules) e g days =
  simulateSampling re fmt rawData rules e g days.
Proof.
  intros Htrimmed. rewrite Forall_forall in Htrimmed.
  apply simulateSampling_filter_idle.
  intros r Hr Hk. apply isActive_false_trimmed; [|done]. by apply Htrimmed.
Qed.

(** X6. Sorting only reorders the rules, sorting a sorted list changes
    nothing, and filtering the active rules before or after sorting gives
    the same list. *)
Theorem sortRules_reorders_only rules :
  sortRules rules ≡ₚ rules ∧
  sortRules (sortRules rules) = sortRules rules ∧
  sortRules (getActiveRules rules) = getActiveRules (sortRules rules).
Proof.
  split; [|split].
  - rewrite sortRules_partition.
    induction rules as [|r rules IH]; simpl; [done|].
    destruct (is_equals r); simpl.
    + by rewrite IH.
    + by rewrite <- Permutation_middle, IH.
  - rewrite (sortRules_partition rules) at 1.
    rewrite sortRules_fixed; [by rewrite <- sortRules_partition| |];
      intros r [_ Hr]%list_elem_of_In%filter_In; [done|].
    by apply negb_true_iff.
  - apply sortRules_filter.
Qed.

End ActiveRules.

(** ** Further properties of the simulator *)

Section SimulatorProperties.

Variable re : string → JS.completion (string → bool).
Variable fmt : Q → string.

(** X7. The rules the popup hands to the simulator all use the contains
    operator, so sorting leaves them in the order of the list and the
    active-rule filter keeps them all: every group takes the rate of the
    first rule, in the user's order, that matches it. *)
Theorem popup_rules_apply_in_list_order rules :
  sortRules (Popup.activeRules rules) = Popup.activeRules rules ∧
  getActiveRules (Popup.activeRules rules) = Popup.activeRules rules ∧
  ∀ rawData e g days i item,
    groups rawData !! i = Some item →
    ∃ row,
      breakdown (simulateSampling re fmt rawData (Popup.activeRules rules) e g days)
        !! i = Some row ∧
      samplingRate row =
        chosenRate (matchesRule re item) (Popup.activeRules rules) g.
Proof.
  assert (Hsorted : sortRules (Popup.activeRules rules) = Popup.activeRules rules).
  { rewrite <- (app_nil_l (Popup.activeRules rules)).
    apply sortRules_fixed; [by intros r Hr%elem_of_nil|].
    unfold Popup.activeRules. intros r Hr%list_elem_of_In%in_map_iff.
    destruct Hr as (p & <- & _). by apply bool_decide_eq_false. }
  split; [done|]. split.
  - apply filter_all. unfold Popup.activeRules.
    intros r Hr%list_elem_of_In%in_map_iff.
    destruct Hr as (p & <- & [_ Hp]%filter_In).
    apply andb_true_iff in Hp as [Hp _].
    unfold isActive. cbn [value attribute]. rewrite Hp.
    by destruct (bool_decide _).
  - intros rawData e g days i item Hi.
    exists (groupRow re (sortRules (Popup.activeRules rules)) e g item).
    split; [by apply breakdown_lookup|].
    rewrite Hsorted. apply groupRow_fields.
Qed.

Lemma fold_Qplus_shift xs a : fold_left Qplus xs a == a + fold_left Qplus xs 0.
Proof.
  revert a. induction xs as [|x xs IH]; intros a; simpl; [ring|].
  rewrite (IH (a + x)), (IH (0 + x)). ring.
Qed.

Lemma runningTotal_cons x xs : runningTotal (x :: xs) == x + runningTotal xs.
Proof. unfold runningTotal. simpl. rewrite fold_Qplus_shift. ring. Qed.

Lemma runningTotal_app xs ys :
  runningTotal (xs ++ ys) == runningTotal xs + runningTotal ys.
Proof.
  unfold runningTotal. rewrite fold_left_app. apply fold_Qplus_shift.
Qed.

Lemma runningTotal_rawCount sortedRules e g gs :
  runningTotal (map rawCount (map (groupRow re sortedRules e g) gs)) = groupSum gs.
Proof.
  unfold runningTotal, groupSum. generalize 0.
  induction gs as [|item gs IH]; intros a; simpl; [done|].
  rewrite IH. f_equal. f_equal. apply groupRow_fields.
Qed.

Lemma listed_rawCount_max rawData rules e g days :
  let r := simulateSampling re fmt rawData rules e g days in
  runningTotal (map rawCount (breakdown r)) ==
  Qmax (totalRawCount r) (groupSum (groups rawData)).
Proof.
  intros r. subst r.
  destruct (decide (groups rawData = [])) as [Hnil|Hne].
  { unfold simulateSampling. rewrite Hnil. reflexivity. }
  rewrite (simulateSampling_nonempty re fmt _ _ _ _ _ Hne). simpl.
  rewrite map_app, runningTotal_app, runningTotal_rawCount.
  set (total := resolvedTotal rawData). set (sum := groupSum (groups rawData)).
  destruct (Qlt_le_dec 0 (total - sum)) as [Hpos|Hle]; simpl.
  - rewrite Q.max_l by lra. rewrite runningTotal_cons. unfold runningTotal.
    simpl. ring.
  - rewrite Q.max_r by lra. unfold runningTotal. simpl. ring.
Qed.

(** X8. The raw counts of the breakdown add up to the larger of the total
    raw count and the sum of the group counts; they add up to the total
    raw count unless a declared total lies below the sum of the groups. *)
Theorem breakdown_accounts_for_raw_counts rawData rules e g days :
  let r := simulateSampling re fmt rawData rules e g days in
  let listed := runningTotal (map rawCount (breakdown r)) in
  listed == Qmax (totalRawCount r) (groupSum (groups rawData)) ∧
  (groupSum (groups rawData) <= totalRawCount r → listed == totalRawCount r).
Proof.
  intros r listed. subst listed r.
  split; [apply listed_rawCount_max|].
  intros Hle. rewrite listed_rawCount_max. by apply Q.max_l.
Qed.

(** The total is the running sum of the simulated counts of the entries. *)
Lemma totalSimulatedCount_runningTotal rawData rules e g days :
  let r := simulateSampling re fmt rawData rules e g days in
  totalSimulatedCount r = runningTotal (map simulatedCount (breakdown r)).
Proof.
  intros r. subst r.
  destruct (decide (groups rawData = [])) as [Hnil|Hne].
  { unfold simulateSampling. by rewrite Hnil. }
  rewrite (simulateSampling_nonempty re fmt _ _ _ _ _ Hne). simpl.
  unfold runningTotal. rewrite map_app, fold_left_app.
  by destruct (Qlt_le_dec 0 _).
Qed.

(** A property of the group entries and of the entry for the unlisted
    spans holds of every entry of the breakdown. *)
Lemma breakdown_Forall (P : BreakdownRow → Prop) rawData rules e g days :
  (∀ item, item ∈ groups rawData → P (groupRow re (sortRules rules) e g item)) →
  (∀ m, 0 < m → P (otherRow fmt m (m * g * e) g)) →
  Forall P (breakdown (simulateSampling re fmt rawData rules e g days)).
Proof.
  intros Hgroup Hother.
  destruct (decide (groups rawData = [])) as [Hnil|Hne].
  { unfold simulateSampling. rewrite Hnil. constructor. }
  rewrite (simulateSampling_nonempty re fmt _ _ _ _ _ Hne). simpl.
  apply Forall_app. split.
  - apply Forall_forall. intros row Hrow%list_elem_of_In%in_map_iff.
    destruct Hrow as (item & <- & Hitem%list_elem_of_In). by apply Hgroup.
  - destruct (Qlt_le_dec 0 _) as [Hpos|_]; [|constructor].
    constructor; [by apply Hother|constructor].
Qed.

Lemma runningTotal_Qeq xs ys :
  Forall2 Qeq xs ys → runningTotal xs == runningTotal ys.
Proof.
  intros H. induction H as [|x y xs ys Hxy H IH]; [reflexivity|].
  by rewrite !runningTotal_cons, IH, Hxy.
Qed.

Lemma runningTotal_le xs ys :
  Forall2 Qle xs ys → runningTotal xs <= runningTotal ys.
Proof. intros H. apply fold_Qplus_mono; [done|apply Qle_refl]. Qed.

Lemma runningTotal_nonneg xs : Forall (Qle 0) xs → 0 <= runningTotal xs.
Proof.
  intros H. induction H as [|x xs Hx H IH].
  - apply Qle_refl.
  - rewrite runningTotal_cons. lra.
Qed.

Lemma chosenRate_cases (matches : Rule → bool) sortedRules g :
  chosenRate matches sortedRules g = g ∧ List.find matches sortedRules = None ∨
  ∃ rule, rule ∈ sortedRules ∧ matches rule = true ∧
          List.find matches sortedRules = Some rule ∧
          chosenRate matches sortedRules g = rate rule / 100.
Proof.
  unfold chosenRate. destruct (List.find matches sortedRules) as [rule|] eqn:Hfind.
  - right. exists rule. apply find_some in Hfind as [Hin Hm].
    by rewrite list_elem_of_In.
  - by left.
Qed.

(** X9. When no rule of the list matches any group, every entry carries
    the global rate and the label "global", its simulated count is its raw
    count * globalRate * expansionFactor, and the total simulated count is
    the running sum, in the order of the entries, of these products. *)
Theorem no_matching_rule_scales_uniformly rawData rules e g days :
  (∀ item rule, item ∈ groups rawData → rule ∈ rules →
                matchesRule re item rule = false) →
  let r := simulateSampling re fmt rawData rules e g days in
  Forall (λ row, samplingRate row = g ∧ matchedRule row = "global" ∧
                 simulatedCount row = rawCount row * g * e) (breakdown r) ∧
  totalSimulatedCount r =
    runningTotal (map (λ row, rawCount row * g * e) (breakdown r)).
Proof.
  intros Hnone r.
  assert (Hrows : Forall (λ row, samplingRate row = g ∧ matchedRule row = "global" ∧
                    simulatedCount row = rawCount row * g * e) (breakdown r)).
  { apply breakdown_Forall; [|done].
    intros item Hitem.
    destruct (groupRow_fields re (sortRules rules) e g item)
      as (_ & Hraw & Hrate & Hsim & Hlabel).
    destruct (chosenRate_cases (matchesRule re item) (sortRules rules) g)
      as [[Hg Hfind]|(rule & Hin & Hm & _)].
    - rewrite Hfind in Hlabel. rewrite Hg in Hrate.
      by rewrite Hsim, Hrate, Hraw.
    - apply (proj1 (elem_of_sortRules _ _)) in Hin.
      rewrite (Hnone item rule Hitem Hin) in Hm. discriminate. }
  split; [done|].
  unfold r at 1. rewrite totalSimulatedCount_runningTotal. fold r.
  f_equal. apply Forall_fmap_ext.
  eapply Forall_impl; [exact Hrows|]. by intros row (_ & _ & ->).
Qed.

(** X10. With group counts, rule rates, global rate and expansion factor
    that are not negative and a positive period, no simulated count is
    negative, the total and its monthly projection are not negative, and
    the cost reduction is at most 100. *)
Theorem simulated_counts_nonnegative rawData rules e g days :
  Forall (λ item, 0 <= count_or_0 item) (groups rawData) →
  Forall (λ rule, 0 <= rate rule) rules →
  0 <= g → 0 <= e → 0 < days →
  let r := simulateSampling re fmt rawData rules e g days in
  Forall (λ row, 0 <= simulatedCount row) (breakdown r) ∧
  0 <= totalSimulatedCount r ∧
  0 <= monthlySimulatedCount r ∧
  costReduction r <= 100.
Proof.
  intros Hcount Hrate Hg He Hdays r.
  rewrite Forall_forall in Hcount. rewrite Forall_forall in Hrate.
  assert (Hrows : Forall (λ row, 0 <= simulatedCount row) (breakdown r)).
  { apply breakdown_Forall.
    - intros item Hitem.
      destruct (groupRow_fields re (sortRules rules) e g item)
        as (_ & _ & Hsr & Hsim & _).
      rewrite Hsim, Hsr.
      apply Qmult_le_0_compat; [|done].
      apply Qmult_le_0_compat; [by apply Hcount|].
      destruct (chosenRate_cases (matchesRule re item) (sortRules rules) g)
        as [[-> _]|(rule & Hin & _ & _ & ->)]; [done|].
      apply (proj1 (elem_of_sortRules _ _)) in Hin.
      apply Qle_shift_div_l; [reflexivity|]. specialize (Hrate rule Hin). lra.
    - intros m Hm. simpl.
      apply Qmult_le_0_compat; [|done].
      apply Qmult_le_0_compat; [lra|done]. }
  assert (Htotal : 0 <= totalSimulatedCount r).
  { subst r. rewrite totalSimulatedCount_runningTotal.
    apply runningTotal_nonneg, Forall_fmap.
    eapply Forall_impl; [exact Hrows|]. by intros row. }
  split; [done|]. split; [done|].
  clear Hrows. subst r. revert Htotal. unfold simulateSampling.
  destruct (groups rawData) as [|item gs]; simpl.
  { intros _. split; [apply Qle_refl|done]. }
  set (sim := acc_total _). set (raw := match totalCountFromMeta rawData with
                                         | Some _ => _ | None => _ end).
  intros Hsim. split.
  - apply Qmult_le_0_compat; [done|].
    apply Qle_shift_div_l; [done|]. lra.
  - apply Q.max_lub; [done|].
    destruct (Qlt_le_dec 0 raw) as [Hpos|_]; [|done].
    assert (Hinv : raw * / raw == 1) by (apply Qmult_inv_r; lra).
    assert (Hk : 0 < / raw) by by apply Qinv_lt_0_compat.
    unfold Qdiv. set (k := / raw) in *. clearbody k sim raw.
    assert (Hprod : 0 <= sim * k) by (apply Qmult_le_0_compat; lra).
    assert (Heq : (raw - sim) * k * 100 == (raw * k - sim * k) * 100) by ring.
    rewrite Heq, Hinv. lra.
Qed.

(** X11. With group counts that are not negative, rule rates between 0
    and 100, a global rate between 0 and 1 and an expansion factor between
    0 and 1, no entry simulates more spans than it has, the total simulated
    count is at most the listed raw count, and, when the total raw count is
    positive and not below the sum of the groups, the cost reduction is the
    plain percentage (raw - simulated) / raw * 100, the clamp being idle. *)
Theorem simulated_counts_bounded_by_raw rawData rules e g days :
  Forall (λ item, 0 <= count_or_0 item) (groups rawData) →
  Forall (λ rule, 0 <= rate rule <= 100) rules →
  0 <= g <= 1 → 0 <= e <= 1 →
  let r := simulateSampling re fmt rawData rules e g days in
  Forall (λ row, simulatedCount row <= rawCount row) (breakdown r) ∧
  totalSimulatedCount r <= runningTotal (map rawCount (breakdown r)) ∧
  (0 < totalRawCount r → groupSum (groups rawData) <= totalRawCount r →
   costReduction r ==
     (totalRawCount r - totalSimulatedCount r) / totalRawCount r * 100).
Proof.
  intros Hcount Hrate [Hg0 Hg1] [He0 He1] r.
  rewrite Forall_forall in Hcount. rewrite Forall_forall in Hrate.
  assert (Hscale : ∀ c s, 0 <= c → 0 <= s <= 1 → c * s * e <= c).
  { intros c s Hc [Hs0 Hs1].
    assert (H1 : 0 <= c * s) by by apply Qmult_le_0_compat.
    assert (H2 : 0 <= c * (1 - s)) by (apply Qmult_le_0_compat; lra).
    assert (H3 : 0 <= (c * s) * (1 - e)) by (apply Qmult_le_0_compat; lra).
    lra. }
  assert (Hrows : Forall (λ row, simulatedCount row <= rawCount row) (breakdown r)).
  { apply breakdown_Forall.
    - intros item Hitem.
      destruct (groupRow_fields re (sortRules rules) e g item)
        as (_ & Hraw & Hsr & Hsim & _).
      rewrite Hsim, Hsr, Hraw. apply Hscale; [by apply Hcount|].
      destruct (chosenRate_cases (matchesRule re item) (sortRules rules) g)
        as [[-> _]|(rule & Hin & _ & _ & ->)]; [done|].
      apply (proj1 (elem_of_sortRules _ _)) in Hin.
      specialize (Hrate rule Hin). split.
      + apply Qle_shift_div_l; [reflexivity|]. lra.
      + apply Qle_shift_div_r; [reflexivity|]. lra.
    - intros m Hm. simpl. apply Hscale; [lra|done]. }
  assert (Htotal : totalSimulatedCount r <= runningTotal (map rawCount (breakdown r))).
  { subst r. rewrite totalSimulatedCount_runningTotal.
    apply runningTotal_le, Forall2_fmap, Forall_Forall2_diag. exact Hrows. }
  split; [done|]. split; [done|].
  intros Hpos Hle.
  assert (Hsim : totalSimulatedCount r <= totalRawCount r).
  { eapply Qle_trans; [exact Htotal|]. subst r.
    rewrite listed_rawCount_max, Q.max_l by done. apply Qle_refl. }
  clear Hrows Htotal. subst r. revert Hpos Hle Hsim.
  destruct (decide (groups rawData = [])) as [Hnil|Hne].
  { unfold simulateSampling. rewrite Hnil. simpl. intros H. by apply Qlt_irrefl in H. }
  rewrite (simulateSampling_nonempty re fmt _ _ _ _ _ Hne). simpl.
  set (raw := resolvedTotal rawData).
  set (sim := if Qlt_le_dec 0 (raw - _) then _ else _).
  intros Hpos _ Hsim.
  destruct (Qlt_le_dec 0 raw) as [_|Hneg]; [|lra].
  apply Q.max_r.
  assert (Hk : 0 < / raw) by by apply Qinv_lt_0_compat.
  unfold Qdiv. set (k := / raw) in *. clearbody k sim raw.
  assert (Hprod : 0 <= (raw - sim) * k) by (apply Qmult_le_0_compat; lra).
  lra.
Qed.

(** X12. The expansion factor scales the entries: every simulated count
    is the expansion factor times its value at an expansion factor of 1,
    while rates, raw counts and labels stay the same; the total simulated
    count is the running sum, in the order of the entries, of the expansion
    factor times the simulated counts at an expansion factor of 1. *)
Theorem expansionFactor_scales_total rawData rules e g days :
  let r := simulateSampling re fmt rawData rules e g days in
  let r1 := simulateSampling re fmt rawData rules 1 g days in
  Forall2
    (λ row row1,
       simulatedCount row == e * simulatedCount row1 ∧
       samplingRate row = samplingRate row1 ∧
       rawCount row = rawCount row1 ∧
       matchedRule row = matchedRule row1)
    (breakdown r) (breakdown r1) ∧
  totalSimulatedCount r ==
    runningTotal (map (λ row1, e * simulatedCount row1) (breakdown r1)).
Proof.
  intros r r1.
  assert (Hrows : Forall2
    (λ row row1,
       simulatedCount row == e * simulatedCount row1 ∧
       samplingRate row = samplingRate row1 ∧
       rawCount row = rawCount row1 ∧
       matchedRule row = matchedRule row1)
    (breakdown r) (breakdown r1)).
  { subst r r1.
    destruct (decide (groups rawData = [])) as [Hnil|Hne].
    { unfold simulateSampling. rewrite Hnil. constructor. }
    rewrite !(simulateSampling_nonempty re fmt _ _ _ _ _ Hne). simpl.
    apply Forall2_app.
    - clear Hne. induction (groups rawData) as [|item gs IH]; simpl; constructor; [|done].
      destruct (groupRow_fields re (sortRules rules) e g item)
        as (_ & Hraw & Hsr & Hsim & Hlabel).
      destruct (groupRow_fields re (sortRules rules) 1 g item)
        as (_ & Hraw1 & Hsr1 & Hsim1 & Hlabel1).
      rewrite Hsim, Hsim1, Hsr, Hsr1, Hraw, Hraw1, Hlabel, Hlabel1.
      repeat split. ring.
    - destruct (Qlt_le_dec 0 _); constructor; [|constructor].
      simpl. repeat split. ring. }
  split; [done|].
  unfold r at 1. rewrite totalSimulatedCount_runningTotal. fold r.
  apply runningTotal_Qeq, Forall2_fmap.
  eapply Forall2_impl; [exact Hrows|]. by intros row row1 [H _].
Qed.

End SimulatorProperties.

(** ** Properties of the breakdown table *)

Section SortByRawCount.

Lemma byRawCountDescending_pos a b :
  (0 <? byRawCountDescending a b)%Z = true ↔ rawCount a < rawCount b.
Proof.
  unfold byRawCountDescending. rewrite Z.ltb_lt.
  set (d := rawCount b - rawCount a).
  assert (H : (0 < Z.sgn (Qnum d))%Z ↔ 0 < d).
  { unfold Qlt. simpl. destruct (Qnum d); simpl; lia. }
  rewrite H. subst d. split; intros; lra.
Qed.

Lemma sort_insert_Permutation {A} (cmp : A → A → Z) x l :
  JS.sort_insert cmp x l ≡ₚ x :: l.
Proof.
  induction l as [|y l IH]; simpl; [done|].
  destruct (0 <? cmp x y)%Z; [|done].
  by rewrite IH, Permutation_swap.
Qed.

Lemma sort_Permutation {A} (cmp : A → A → Z) l : JS.sort cmp l ≡ₚ l.
Proof.
  unfold JS.sort. induction l as [|x l IH]; simpl; [done|].
  by rewrite sort_insert_Permutation, IH.
Qed.

Lemma sort_insert_descending x l :
  StronglySorted descending l →
  StronglySorted descending (JS.sort_insert byRawCountDescending x l).
Proof.
  intros H. induction H as [|y l Hsorted IH Hy]; simpl.
  - repeat constructor.
  - destruct (0 <? byRawCountDescending x y)%Z eqn:Hcmp.
    + apply byRawCountDescending_pos in Hcmp.
      constructor; [done|].
      rewrite sort_insert_Permutation. constructor; [|done].
      unfold descending. lra.
    + assert (Hle : rawCount y <= rawCount x).
      { destruct (Qlt_le_dec (rawCount x) (rawCount y)) as [Hlt|]; [|done].
        apply byRawCountDescending_pos in Hlt. congruence. }
      constructor; [by constructor|].
      constructor; [done|].
      eapply Forall_impl; [exact Hy|]. unfold descending. intros z Hz. lra.
Qed.

Lemma sort_descending l :
  StronglySorted descending (JS.sort byRawCountDescending l).
Proof.
  unfold JS.sort. induction l as [|x l IH]; simpl; [constructor|].
  by apply sort_insert_descending.
Qed.

Lemma sort_insert_stable k x l :
  List.filter (λ r, Qeq_bool (rawCount r) k)
    (JS.sort_insert byRawCountDescending x l) =
  List.filter (λ r, Qeq_bool (rawCount r) k) (x :: l).
Proof.
  induction l as [|y l IH]; [done|].
  cbn [JS.sort_insert].
  destruct (0 <? byRawCountDescending x y)%Z eqn:Hcmp; [|done].
  apply byRawCountDescending_pos in Hcmp.
  cbn [List.filter] in *. rewrite IH.
  destruct (Qeq_bool (rawCount x) k) eqn:Hx, (Qeq_bool (rawCount y) k) eqn:Hy;
    try done.
  apply Qeq_bool_iff in Hx, Hy. lra.
Qed.

(** Entries with the same raw count keep their order. *)
Lemma sort_stable k l :
  List.filter (λ r, Qeq_bool (rawCount r) k) (JS.sort byRawCountDescending l) =
  List.filter (λ r, Qeq_bool (rawCount r) k) l.
Proof.
  unfold JS.sort. induction l as [|x l IH]; [done|].
  cbn [foldr]. rewrite sort_insert_stable. cbn [List.filter]. by rewrite IH.
Qed.

End SortByRawCount.

(** Reduce the projections of a view that is written out. *)
Ltac view_fields :=
  cbn [App.breakdownData App.filteredBreakdownData App.currentPage
       App.container App.emptyNote App.breakdownSearch App.paginationDisplay
       App.prevDisabled App.nextDisabled App.pageInfo App.withPage].

Section Pagination.

Lemma totalPages_div (l : list BreakdownRow) :
  App.totalPages l = ((Z.of_nat (length l) + 49) / 50)%Z.
Proof.
  unfold App.totalPages, App.itemsPerPage, Qceiling, Qfloor.
  set (n := Z.of_nat (length l)). simpl.
  rewrite Z.mul_1_r. change (Z.pos (1 * 50)) with 50%Z.
  Z.div_mod_to_equations. lia.
Qed.

Lemma totalPages_bounds (l : list BreakdownRow) :
  let n := Z.of_nat (length l) in
  (n ≤ 50 * App.totalPages l < n + 50)%Z.
Proof. intros n. rewrite totalPages_div. subst n. Z.div_mod_to_equations. lia. Qed.

Lemma slice_nil {A} (start end_ : Z) : JSArray.slice (@nil A) start end_ = [].
Proof. unfold JSArray.slice. by rewrite drop_nil, take_nil. Qed.

(** A slice of fifty from a start that is not negative. *)
Lemma slice_fifty {A} (l : list A) (start : Z) :
  (0 ≤ start)%Z →
  JSArray.slice l start (start + 50) = take 50 (drop (Z.to_nat start) l).
Proof.
  intros Hstart. unfold JSArray.slice, JSArray.relativeIndex.
  set (len := Z.of_nat (length l)).
  destruct (start <? 0)%Z eqn:H1; [apply Z.ltb_lt in H1; lia|].
  destruct (start + 50 <? 0)%Z eqn:H2; [apply Z.ltb_lt in H2; lia|].
  destruct (decide (start ≤ len)%Z) as [Hle|Hgt].
  - rewrite (Z.min_l start len) by done.
    destruct (decide (start + 50 ≤ len)%Z) as [Hfull|Hpart].
    + rewrite Z.min_l by done. f_equal. lia.
    + rewrite Z.min_r by lia.
      rewrite !take_ge; [done| |]; rewrite length_drop; subst len; lia.
  - rewrite !Z.min_r by lia. rewrite Z.sub_diag. simpl.
    rewrite (drop_ge l (Z.to_nat start)) by (subst len; lia).
    by rewrite take_nil.
Qed.

Lemma pageSlice_nil p : pageSlice [] p = [].
Proof. apply slice_nil. Qed.

Lemma pageSlice_take shown p :
  (1 ≤ p)%Z →
  pageSlice shown p = take 50 (drop (Z.to_nat ((p - 1) * 50)) shown).
Proof.
  intros Hp. unfold pageSlice, App.itemsPerPage. apply slice_fifty. lia.
Qed.

Lemma totalPages_pos (l : list BreakdownRow) : l ≠ [] → (1 ≤ App.totalPages l)%Z.
Proof.
  intros Hne. pose proof (totalPages_bounds l) as H. cbv zeta in H.
  destruct l; [done|]. simpl length in H. lia.
Qed.

Lemma filter_sublist {A} (f : A → bool) l : List.filter f l `sublist_of` l.
Proof.
  induction l as [|x l IH]; simpl; [constructor|].
  destruct (f x); by constructor.
Qed.

Lemma renderBreakdownPage_invariant v :
  (1 ≤ App.currentPage v)%Z →
  (App.filteredBreakdownData v ≠ [] →
   (App.currentPage v ≤ App.totalPages (App.filteredBreakdownData v))%Z) →
  (App.filteredBreakdownData v = [] → App.currentPage v = 1%Z) →
  App.filteredBreakdownData v `sublist_of` App.breakdownData v →
  StronglySorted descending (App.breakdownData v) →
  (App.filteredBreakdownData v = [] → App.breakdownData v ≠ [] →
   JS.truthy (Some (App.breakdownSearch v)) = true) →
  viewInvariant (App.renderBreakdownPage v).
Proof.
  intros Hp Hrange Hfirst Hsub Hsorted Hsearch.
  unfold viewInvariant, App.renderBreakdownPage.
  destruct (App.filteredBreakdownData v) as [|row rows] eqn:Hshown.
  - simpl. rewrite ?Hshown. split; [done|]. split; [done|].
    split; [by intros _; apply Hfirst|].
    split; [by rewrite pageSlice_nil|].
    split; [done|]. split; [done|]. split; [done|].
    intros _ Hdata. specialize (Hsearch eq_refl Hdata).
    by destruct (App.breakdownSearch v).
  - destruct (1 <? App.totalPages (row :: rows))%Z eqn:Hpages;
      simpl; rewrite ?Hshown, ?Hpages; repeat (split; [done|]); done.
Qed.

Lemma viewInvariant_handle ev v : viewInvariant v → viewInvariant (App.handle ev v).
Proof.
  intros Hinv.
  pose proof Hinv as (Hp & Hrange & Hfirst & Hcont & Hsub & Hsorted & _).
  destruct ev as [breakdown|text| |]; simpl.
  - unfold App.renderBreakdown. apply renderBreakdownPage_invariant; simpl.
    + done.
    + intros Hne. by apply totalPages_pos.
    + done.
    + done.
    + apply sort_descending.
    + by intros ->.
  - unfold App.onSearchInput, App.filterAndPaginateBreakdown. view_fields.
    destruct (App.breakdownData v) as [|row rows] eqn:Hdata.
    { unfold viewInvariant in *. view_fields. by rewrite Hdata in *. }
    apply renderBreakdownPage_invariant; view_fields.
    + done.
    + intros Hne. by apply totalPages_pos.
    + done.
    + destruct (JS.truthy (Some (JS.trim text))); [apply filter_sublist|done].
    + done.
    + destruct (JS.truthy (Some (JS.trim text))) eqn:Hq; [|done].
      intros _ _. destruct text; [done|done].
  - unfold App.onPrevPage. destruct (1 <? App.currentPage v)%Z eqn:Hlt; [|done].
    apply Z.ltb_lt in Hlt.
    apply renderBreakdownPage_invariant; simpl; try done.
    + lia.
    + intros Hne. specialize (Hrange Hne). lia.
    + intros Hnil. specialize (Hfirst Hnil). lia.
    + intros Hnil. specialize (Hfirst Hnil). lia.
  - unfold App.onNextPage.
    destruct (App.currentPage v <? App.totalPages _)%Z eqn:Hlt; [|done].
    apply Z.ltb_lt in Hlt.
    assert (Hne : App.filteredBreakdownData v ≠ []).
    { intros Hnil. rewrite Hnil in Hlt. rewrite (Hfirst Hnil) in Hlt.
      by vm_compute in Hlt. }
    apply renderBreakdownPage_invariant; simpl; try done.
    + lia.
    + intros _. lia.
Qed.

Lemma viewInvariant_loaded v : App.loaded v → viewInvariant v.
Proof.
  intros (Hdata & Hshown & Hpage & Hcont). unfold viewInvariant.
  rewrite Hdata, Hshown, Hpage, Hcont.
  split; [done|]. split; [done|]. split; [done|].
  split; [by rewrite pageSlice_nil|].
  split; [done|]. split; [constructor|]. done.
Qed.

Lemma viewInvariant_run evs v : viewInvariant v → viewInvariant (App.run evs v).
Proof.
  unfold App.run. revert v. induction evs as [|ev evs IH]; intros v Hv; simpl; [done|].
  by apply IH, viewInvariant_handle.
Qed.

Lemma StronglySorted_sublist {A} (R : A → A → Prop) (l1 l2 : list A) :
  l1 `sublist_of` l2 → StronglySorted R l2 → StronglySorted R l1.
Proof.
  intros Hsub. induction Hsub as [|x l1 l2 Hsub IH|x l1 l2 Hsub IH];
    intros Hsorted; [done| |].
  - apply StronglySorted_inv in Hsorted as [Hsorted Hall].
    constructor; [by apply IH|].
    rewrite Forall_forall in Hall. apply Forall_forall.
    intros y Hy. apply Hall. by eapply elem_of_sublist.
  - apply StronglySorted_inv in Hsorted as [Hsorted _]. by apply IH.
Qed.

(** X13. From the freshly loaded page and after any run of renders,
    searches and page clicks, the current page is at least 1, the container
    holds the fifty entries of the current page (fewer on the last page),
    and, as long as any entry is selected, the page does not pass the last
    page, the container is not empty, and every page before the last is
    full. *)
Theorem pagination_stays_in_range evs v0 :
  App.loaded v0 →
  let v := App.run evs v0 in
  let shown := App.filteredBreakdownData v in
  let p := App.currentPage v in
  (1 ≤ p)%Z ∧
  App.container v = take 50 (drop (Z.to_nat ((p - 1) * 50)) shown) ∧
  (length (App.container v) ≤ 50)%nat ∧
  (shown ≠ [] →
     (p ≤ App.totalPages shown)%Z ∧
     App.container v ≠ [] ∧
     ((p < App.totalPages shown)%Z → length (App.container v) = 50%nat)).
Proof.
  intros Hloaded v shown p.
  destruct (viewInvariant_run evs v0 (viewInvariant_loaded v0 Hloaded))
    as (Hp & Hrange & _ & Hcont & _).
  fold v in Hp, Hrange, Hcont. fold shown in Hrange, Hcont. fold p in Hp, Hrange, Hcont.
  rewrite pageSlice_take in Hcont by done.
  assert (Hlen : length (App.container v) =
                 (50 `min` (length shown - Z.to_nat ((p - 1) * 50)))%nat).
  { by rewrite Hcont, length_take, length_drop. }
  split; [done|]. split; [done|]. split; [lia|].
  intros Hne. specialize (Hrange Hne).
  pose proof (totalPages_bounds shown) as Hbounds. cbv zeta in Hbounds.
  split; [done|]. split.
  - intros Hnil. rewrite Hnil in Hlen. change (length (@nil BreakdownRow)) with 0%nat in Hlen.
    lia.
  - intros Hlt. lia.
Qed.

(** X14. After any run of events the controls agree with the page: while
    entries are selected there is no note, and with more than one page the
    pagination bar is shown, "previous" is disabled exactly on the first
    page, "next" exactly on the last, and the page information names the
    current page, the number of pages and the number of entries; with one
    page the bar is hidden.  When a search selects nothing, the bar is
    hidden and the note reads "No results found". *)
Theorem pagination_controls_follow_page evs v0 :
  App.loaded v0 →
  let v := App.run evs v0 in
  let shown := App.filteredBreakdownData v in
  let p := App.currentPage v in
  let pages := App.totalPages shown in
  (shown ≠ [] →
     App.emptyNote v = None ∧
     ((1 < pages)%Z →
        App.paginationDisplay v = "flex" ∧
        App.prevDisabled v = (p =? 1)%Z ∧
        App.nextDisabled v = (p =? pages)%Z ∧
        App.pageInfo v = (p, pages, Z.of_nat (length shown))) ∧
     ((pages ≤ 1)%Z → App.paginationDisplay v = "none")) ∧
  (shown = [] → App.breakdownData v ≠ [] →
     App.paginationDisplay v = "none" ∧
     App.emptyNote v = Some "No results found").
Proof.
  intros Hloaded v shown p pages.
  destruct (viewInvariant_run evs v0 (viewInvariant_loaded v0 Hloaded))
    as (_ & _ & _ & _ & _ & _ & Hsome & Hnone).
  split; [|done]. intros Hne. destruct (Hsome Hne) as [Hnote Hbar].
  fold v shown in Hbar. fold pages in Hbar.
  split; [done|]. split.
  - intros Hlt. apply Z.ltb_lt in Hlt. by rewrite Hlt in Hbar.
  - intros Hle. apply Z.ltb_ge in Hle. by rewrite Hle in Hbar.
Qed.

(** X15. After any run of events the data of the table is in descending
    order of raw count, the selected entries are drawn from it in order,
    and so the selected entries and the entries of the container are in
    descending order of raw count too. *)
Theorem breakdown_table_stays_sorted evs v0 :
  App.loaded v0 →
  let v := App.run evs v0 in
  StronglySorted descending (App.breakdownData v) ∧
  App.filteredBreakdownData v `sublist_of` App.breakdownData v ∧
  StronglySorted descending (App.filteredBreakdownData v) ∧
  App.container v `sublist_of` App.filteredBreakdownData v ∧
  StronglySorted descending (App.container v).
Proof.
  intros Hloaded v.
  destruct (viewInvariant_run evs v0 (viewInvariant_loaded v0 Hloaded))
    as (Hp & _ & _ & Hcont & Hsub & Hsorted & _).
  fold v in Hp, Hcont, Hsub, Hsorted.
  rewrite pageSlice_take in Hcont by done.
  assert (Hshown : StronglySorted descending (App.filteredBreakdownData v))
    by by eapply StronglySorted_sublist.
  assert (Hpage : App.container v `sublist_of` App.filteredBreakdownData v).
  { rewrite Hcont. etrans; [apply sublist_take|apply sublist_drop]. }
  split; [done|]. split; [done|]. split; [done|]. split; [done|].
  by eapply StronglySorted_sublist.
Qed.

(** X16. Rendering a breakdown stores a rearrangement of it in descending
    order of raw count in which entries of equal raw count keep their
    order, selects all of it, goes to the first page and clears the search
    box. *)
Theorem renderBreakdown_sorts_by_raw_count breakdown v0 :
  let v := App.renderBreakdown breakdown v0 in
  App.breakdownData v ≡ₚ breakdown ∧
  StronglySorted descending (App.breakdownData v) ∧
  (∀ k, List.filter (λ r, Qeq_bool (rawCount r) k) (App.breakdownData v) =
        List.filter (λ r, Qeq_bool (rawCount r) k) breakdown) ∧
  App.filteredBreakdownData v = App.breakdownData v ∧
  App.currentPage v = 1%Z ∧
  App.breakdownSearch v = "".
Proof.
  intros v. subst v. unfold App.renderBreakdown, App.renderBreakdownPage.
  view_fields.
  destruct (JS.sort byRawCountDescending breakdown) as [|row rows] eqn:Hsort.
  - view_fields. rewrite <- Hsort.
    split; [apply sort_Permutation|]. split; [apply sort_descending|].
    split; [intros k; apply sort_stable|]. done.
  - destruct (1 <? App.totalPages (row :: rows))%Z; view_fields; rewrite <- Hsort;
      (split; [apply sort_Permutation|]; split; [apply sort_descending|];
       split; [intros k; apply sort_stable|]; done).
Qed.

Lemma chunks_concat {A} (l : list A) (n : nat) :
  (length l ≤ 50 * n)%nat →
  concat (map (λ k, take 50 (drop (50 * k) l)) (seq 0 n)) = l.
Proof.
  revert l. induction n as [|n IH]; intros l Hlen.
  - destruct l; simpl in *; [done|lia].
  - cbn [seq map concat]. rewrite <- seq_shift, map_map.
    transitivity (take 50 l ++ drop 50 l); [|apply take_drop].
    change (drop (50 * 0) l) with l. f_equal.
    etrans; [|apply (IH (drop 50 l)); rewrite length_drop; lia].
    f_equal. apply map_ext. intros k.
    by rewrite drop_drop, Nat.mul_succ_r, Nat.add_comm.
Qed.

Lemma renderBreakdownPage_container v :
  App.container (App.renderBreakdownPage v) =
  pageSlice (App.filteredBreakdownData v) (App.currentPage v).
Proof.
  unfold App.renderBreakdownPage.
  destruct (App.filteredBreakdownData v) as [|row rows]; [by rewrite pageSlice_nil|].
  by destruct (1 <? App.totalPages (row :: rows))%Z.
Qed.

(** Rendering page [p] of a selection of more than one page sets every
    part of the document that depends on the page. *)
Lemma renderBreakdownPage_withPage v w p :
  (1 < App.totalPages (App.filteredBreakdownData v))%Z →
  App.breakdownData w = App.breakdownData v →
  App.filteredBreakdownData w = App.filteredBreakdownData v →
  App.breakdownSearch w = App.breakdownSearch v →
  App.renderBreakdownPage (App.withPage w p) =
  App.renderBreakdownPage (App.withPage v p).
Proof.
  intros Hpages Hdata Hshown Hsearch.
  unfold App.renderBreakdownPage, App.withPage. view_fields.
  rewrite Hdata, Hshown.
  destruct (App.filteredBreakdownData v) as [|row rows] eqn:Hv.
  { by vm_compute in Hpages. }
  apply Z.ltb_lt in Hpages. by rewrite Hpages, Hsearch.
Qed.

Lemma renderBreakdownPage_keeps v :
  App.breakdownData (App.renderBreakdownPage v) = App.breakdownData v ∧
  App.filteredBreakdownData (App.renderBreakdownPage v) = App.filteredBreakdownData v ∧
  App.currentPage (App.renderBreakdownPage v) = App.currentPage v ∧
  App.breakdownSearch (App.renderBreakdownPage v) = App.breakdownSearch v.
Proof.
  unfold App.renderBreakdownPage.
  destruct (App.filteredBreakdownData v) as [|row rows] eqn:Hv; [by rewrite ?Hv|].
  destruct (1 <? App.totalPages (row :: rows))%Z; by rewrite ?Hv.
Qed.

(** X17. The pages partition the selected entries: the entries that the
    container holds when pages 1, 2, ..., totalPages are rendered, one
    after the other, are the selected entries, each exactly once and in
    order; and pressing "next" k times on the rendered first page, for k
    below the number of pages, gives the rendered page k + 1. *)
Theorem pages_partition_the_selection (v : App.View) :
  let shown := App.filteredBreakdownData v in
  let page k := App.renderBreakdownPage (App.withPage v (Z.of_nat k)) in
  concat (map (λ k, App.container (page k))
              (seq 1 (Z.to_nat (App.totalPages shown)))) = shown ∧
  ∀ k, (Z.of_nat k < App.totalPages shown)%Z →
       App.run (replicate k App.NextPage) (page 1%nat) = page (S k).
Proof.
  intros shown page. split.
  - pose proof (totalPages_bounds shown) as Hbounds. cbv zeta in Hbounds.
    rewrite <- seq_shift, map_map.
    etrans; [|apply (chunks_concat shown (Z.to_nat (App.totalPages shown))); lia].
    f_equal. apply map_ext. intros k. subst page. cbv beta.
    rewrite renderBreakdownPage_container. cbn [App.withPage App.filteredBreakdownData
                                                App.currentPage].
    fold shown. rewrite pageSlice_take by lia. do 2 f_equal. lia.
  - intros k. induction k as [|k IH]; intros Hk; [done|].
    change (replicate (S k) App.NextPage)
      with (App.NextPage :: replicate k App.NextPage).
    rewrite replicate_cons_app. unfold App.run in *. rewrite fold_left_app.
    rewrite IH by lia. cbn [fold_left App.handle]. unfold App.onNextPage.
    destruct (renderBreakdownPage_keeps (App.withPage v (Z.of_nat (S k))))
      as (Hdata & Hshown & Hpage & Hsearch).
    fold (page (S k)) in Hdata, Hshown, Hpage, Hsearch.
    cbn [App.withPage App.breakdownData App.filteredBreakdownData App.currentPage
         App.breakdownSearch] in Hdata, Hshown, Hpage, Hsearch.
    fold shown in Hshown. rewrite Hshown, Hpage.
    assert (Hlt : (Z.of_nat (S k) <? App.totalPages shown)%Z = true)
      by (apply Z.ltb_lt; lia).
    rewrite Hlt.
    replace (Z.of_nat (S k) + 1)%Z with (Z.of_nat (S (S k))) by lia.
    subst page shown. cbv beta in *.
    apply renderBreakdownPage_withPage; [lia|exact Hdata|exact Hshown|exact Hsearch].
Qed.

End Pagination.

Section Search.

Lemma toLowerCase_app a b :
  JS.toLowerCase (a +:+ b) = JS.toLowerCase a +:+ JS.toLowerCase b.
Proof. induction a as [|c a IH]; simpl; [done|]. by rewrite IH. Qed.

Lemma prefix_app q a b : String.prefix q a = true → String.prefix q (a +:+ b) = true.
Proof.
  revert q. induction a as [|d a IH]; intros q H.
  - destruct q; [by destruct b|discriminate H].
  - destruct q as [|c q]; [done|].
    change (String d a +:+ b) with (String d (a +:+ b)).
    simpl in *. destruct (ascii_dec c d); [by apply IH|done].
Qed.

Lemma includes_app_l a b q : JS.includes a q = true → JS.includes (a +:+ b) q = true.
Proof.
  induction a as [|c a IH]; cbn [JS.includes String.append].
  - rewrite orb_false_r. intros H. apply startsWith_includes.
    by apply (prefix_app q "" b).
  - intros [H|H]%orb_true_iff; apply orb_true_iff.
    + left. by apply (prefix_app q (String c a) b).
    + right. by apply IH.
Qed.

Lemma includes_app_r a b q : JS.includes b q = true → JS.includes (a +:+ b) q = true.
Proof.
  intros H. induction a as [|c a IH]; cbn [JS.includes String.append]; [done|].
  apply orb_true_iff. by right.
Qed.

Lemma includes_join (f : string → string) keys key q :
  key ∈ keys →
  JS.includes (JS.toLowerCase (f key)) q = true →
  JS.includes (JS.toLowerCase (String.concat " " (map f keys))) q = true.
Proof.
  intros Hkey Hq. induction keys as [|k keys IH]; [by apply elem_of_nil in Hkey|].
  assert (Hcases : JS.includes (JS.toLowerCase (f k)) q = true ∨
                   keys ≠ [] ∧
                   JS.includes (JS.toLowerCase (String.concat " " (map f keys))) q = true).
  { apply elem_of_cons in Hkey as [->|Hkey]; [by left|right].
    split; [by intros ->; apply elem_of_nil in Hkey|by apply IH]. }
  clear IH Hkey Hq.
  destruct keys as [|k' keys].
  - by destruct Hcases as [H|[H _]].
  - change (String.concat " " (map f (k :: k' :: keys)))
      with (f k +:+ " " +:+ String.concat " " (map f (k' :: keys))).
    rewrite toLowerCase_app. destruct Hcases as [H|[_ H]].
    + by apply includes_app_l.
    + apply includes_app_r. rewrite toLowerCase_app. by apply includes_app_r.
Qed.

Lemma renderBreakdownPage_state v :
  App.breakdownData (App.renderBreakdownPage v) = App.breakdownData v ∧
  App.filteredBreakdownData (App.renderBreakdownPage v) = App.filteredBreakdownData v ∧
  App.currentPage (App.renderBreakdownPage v) = App.currentPage v ∧
  App.breakdownSearch (App.renderBreakdownPage v) = App.breakdownSearch v.
Proof.
  unfold App.renderBreakdownPage.
  destruct (App.filteredBreakdownData v) eqn:Hshown; [by rewrite <- Hshown at 2|].
  by destruct (1 <? _)%Z.
Qed.

(** X18. A search on a table that has data leaves the data as it is and
    goes back to the first page.  A blank search text selects every entry.
    Otherwise every entry that has the trimmed text, in any letter case,
    inside one of its thirteen searched attributes is selected, and
    nothing is selected that is not an entry of the table. *)
Theorem search_selects_by_fragment text v :
  App.breakdownData v ≠ [] →
  let v' := App.onSearchInput text v in
  let query := JS.toLowerCase (JS.trim text) in
  App.breakdownData v' = App.breakdownData v ∧
  App.currentPage v' = 1%Z ∧
  (JS.trim text = "" → App.filteredBreakdownData v' = App.breakdownData v) ∧
  (∀ row key,
     row ∈ App.breakdownData v → key ∈ App.searchedAttributes →
     JS.includes (JS.toLowerCase (item_get (row_item row) key)) query = true →
     row ∈ App.filteredBreakdownData v') ∧
  App.filteredBreakdownData v' `sublist_of` App.breakdownData v.
Proof.
  intros Hdata v' query. subst v'.
  unfold App.onSearchInput, App.filterAndPaginateBreakdown. view_fields.
  destruct (App.breakdownData v) as [|r0 rows] eqn:Hrows; [done|].
  rewrite <- Hrows in *.
  match goal with
  | |- context [App.renderBreakdownPage ?w] =>
      destruct (renderBreakdownPage_state w) as (-> & -> & -> & _)
  end.
  view_fields.
  split; [done|]. split; [done|]. split; [|split].
  - by intros ->.
  - intros row key Hrow Hkey Hfound.
    destruct (JS.truthy (Some (JS.trim text))); [|done].
    apply list_elem_of_In, filter_In. split; [by apply list_elem_of_In|].
    unfold App.searchableText. by apply includes_join with key.
  - destruct (JS.truthy (Some (JS.trim text))); [apply filter_sublist|done].
Qed.

End Search.

Section PopupBreakdown.

Lemma slice_prefix {A} (l : list A) (n : nat) :
  JSArray.slice l 0 (Z.of_nat n) = take n l.
Proof.
  unfold JSArray.slice, JSArray.relativeIndex.
  change (0 <? 0)%Z with false. cbn iota.
  destruct (Z.of_nat n <? 0)%Z eqn:H; [apply Z.ltb_lt in H; lia|].
  rewrite (Z.min_l 0) by lia. change (Z.to_nat 0) with 0%nat. rewrite drop_0.
  destruct (decide (n ≤ length l)%nat).
  - f_equal. lia.
  - rewrite !take_ge; [done|lia|lia].
Qed.

Variable toFixed : nat → Q → string.
Variable toLocaleString : Q → string.

Lemma breakdownItem_described row :
  is_Some (attrs (row_item row) !! "description") →
  ∃ line, PopupView.breakdownItem toFixed toLocaleString row = JS.Normal line.
Proof.
  intros [d Hd]. unfold PopupView.breakdownItem, PopupView.label. rewrite Hd.
  destruct (negb _); by eexists.
Qed.

Lemma breakdownItem_undescribed row :
  ¬ is_Some (attrs (row_item row) !! "description") →
  PopupView.breakdownItem toFixed toLocaleString row = JS.Throw "TypeError".
Proof.
  intros Hd. unfold PopupView.breakdownItem, PopupView.label.
  destruct (attrs (row_item row) !! "description"); [|done].
  exfalso. apply Hd. by eexists.
Qed.

Lemma appendItems_all items container :
  Forall (λ row, is_Some (attrs (row_item row) !! "description")) items →
  ∃ lines,
    Forall2 (λ row line,
               PopupView.breakdownItem toFixed toLocaleString row = JS.Normal line)
      items lines ∧
    PopupView.appendItems toFixed toLocaleString items container =
      (container ++ lines, JS.Normal tt).
Proof.
  intros H. revert container.
  induction H as [|row items Hrow _ IH]; intros container.
  - exists []. split; [constructor|]. by rewrite app_nil_r.
  - destruct (breakdownItem_described row Hrow) as [line Hline].
    destruct (IH (container ++ [line])) as (lines & Hlines & Happend).
    exists (line :: lines). split; [by constructor|].
    cbn [PopupView.appendItems]. rewrite Hline, Happend.
    by rewrite <- app_assoc.
Qed.

Lemma appendItems_stops before row after container :
  Forall (λ row, is_Some (attrs (row_item row) !! "description")) before →
  ¬ is_Some (attrs (row_item row) !! "description") →
  ∃ lines,
    Forall2 (λ row line,
               PopupView.breakdownItem toFixed toLocaleString row = JS.Normal line)
      before lines ∧
    PopupView.appendItems toFixed toLocaleString (before ++ row :: after) container =
      (container ++ lines, JS.Throw "TypeError").
Proof.
  intros H Hrow. revert container.
  induction H as [|item before Hitem _ IH]; intros container.
  - exists []. split; [constructor|].
    cbn [app PopupView.appendItems]. rewrite (breakdownItem_undescribed row Hrow).
    by rewrite app_nil_r.
  - destruct (breakdownItem_described item Hitem) as [line Hline].
    destruct (IH (container ++ [line])) as (lines & Hlines & Happend).
    exists (line :: lines). split; [by constructor|].
    cbn [app PopupView.appendItems]. rewrite Hline, Happend.
    by rewrite <- app_assoc.
Qed.

Lemma popup_renderBreakdown_nonempty breakdown :
  breakdown ≠ [] →
  PopupView.renderBreakdown toFixed toLocaleString breakdown =
  let sorted := JS.sort byRawCountDescending breakdown in
  match PopupView.appendItems toFixed toLocaleString (JSArray.slice sorted 0 20) [] with
  | (container, JS.Normal _) =>
      if (20 <? Z.of_nat (length sorted))%Z
      then (container ++ [PopupView.More (Z.of_nat (length sorted) - 20)],
            JS.Normal tt)
      else (container, JS.Normal tt)
  | (container, JS.Throw e) => (container, JS.Throw e)
  end.
Proof. by destruct breakdown. Qed.

(** X19. The popup sorts the breakdown in descending order of raw count
    and appends a line for each of the first twenty entries.  When every
    entry has a [description], the call returns, the lines are those of the
    twenty entries with the largest raw counts, in descending order, no
    entry left out has a larger raw count than an entry shown, shown and
    left-out entries together are the breakdown, and a last line appears
    exactly when more than twenty entries exist and counts the entries left
    out.  When one of the first twenty entries in that order has no
    [description], as the entries of the simulator have none, the call
    throws a TypeError at the first such entry: only the lines of the
    entries before it are in the container. *)
Theorem popup_shows_the_twenty_largest breakdown :
  let out := PopupView.renderBreakdown toFixed toLocaleString breakdown in
  let sorted := JS.sort byRawCountDescending breakdown in
  let described row := is_Some (attrs (row_item row) !! "description") in
  let lineOf row line :=
    PopupView.breakdownItem toFixed toLocaleString row = JS.Normal line in
  (Forall described breakdown →
     out.2 = JS.Normal tt ∧
     ∃ shown hidden,
       shown ++ hidden ≡ₚ breakdown ∧
       length shown = (20 `min` length breakdown)%nat ∧
       StronglySorted descending shown ∧
       (∀ a b, a ∈ shown → b ∈ hidden → rawCount b <= rawCount a) ∧
       Forall2 lineOf shown (take (length shown) out.1) ∧
       drop (length shown) out.1 =
         (if decide (20 < length breakdown)%nat
          then [PopupView.More (Z.of_nat (length hidden))] else [])) ∧
  (∀ i row,
     (i < 20)%nat → sorted !! i = Some row →
     Forall described (take i sorted) → ¬ described row →
     out.2 = JS.Throw "TypeError" ∧
     Forall2 lineOf (take i sorted) out.1).
Proof.
  intros out sorted described lineOf.
  assert (Hperm : sorted ≡ₚ breakdown) by apply sort_Permutation.
  assert (Hlen : length sorted = length breakdown) by by rewrite Hperm.
  assert (Htop : JSArray.slice sorted 0 20 = take 20 sorted)
    by apply (slice_prefix sorted 20).
  split.
  - intros Hall. subst out.
    destruct (decide (breakdown = [])) as [Hnil|Hne].
    { rewrite Hnil. cbn [PopupView.renderBreakdown fst snd].
      split; [done|]. exists [], [].
      split; [done|]. split; [done|]. split; [constructor|].
      split; [by intros a b Ha%elem_of_nil|]. split; [constructor|].
      destruct (decide (20 < length (@nil BreakdownRow))%nat) as [Hlt|_]; [|done].
      simpl in Hlt. lia. }
    rewrite (popup_renderBreakdown_nonempty _ Hne). cbv zeta. fold sorted.
    rewrite Htop.
    assert (Hshown : Forall described (take 20 sorted)).
    { apply Forall_take. by rewrite Hperm. }
    destruct (appendItems_all (take 20 sorted) [] Hshown) as (lines & Hlines & ->).
    rewrite app_nil_l.
    assert (Hlines_len : length lines = length (take 20 sorted))
      by (symmetry; by eapply Forall2_length).
    assert (Hsorted : StronglySorted descending sorted) by apply sort_descending.
    rewrite <- (take_drop 20 sorted) in Hsorted.
    apply StronglySorted_app in Hsorted as (Hcross & Htake & _).
    assert (Hresult :
      ∀ rest, Forall2 lineOf (take 20 sorted)
                (take (length (take 20 sorted)) (lines ++ rest)) ∧
              drop (length (take 20 sorted)) (lines ++ rest) = rest).
    { intros rest. rewrite take_app_length', drop_app_length' by done. done. }
    destruct (20 <? Z.of_nat (length sorted))%Z eqn:Hmore; cbn [fst snd].
    + apply Z.ltb_lt in Hmore. split; [done|].
      exists (take 20 sorted), (drop 20 sorted).
      split; [by rewrite take_drop|]. split; [by rewrite length_take, Hlen|].
      split; [done|]. split; [by intros a b Ha Hb'; apply Hcross|].
      destruct (Hresult [PopupView.More (Z.of_nat (length sorted) - 20)])
        as [Hitems Hrest].
      split; [done|]. rewrite Hrest, length_drop.
      destruct (decide (20 < length breakdown)%nat); [|lia].
      do 2 f_equal. lia.
    + apply Z.ltb_ge in Hmore. split; [done|].
      exists (take 20 sorted), (drop 20 sorted).
      split; [by rewrite take_drop|]. split; [by rewrite length_take, Hlen|].
      split; [done|]. split; [by intros a b Ha Hb'; apply Hcross|].
      destruct (Hresult []) as [Hitems Hrest]. rewrite app_nil_r in Hitems, Hrest.
      split; [done|]. rewrite Hrest.
      destruct (decide (20 < length breakdown)%nat); [lia|done].
  - intros i row Hi Hrow Hbefore Hmissing. subst out.
    assert (Hne : breakdown ≠ []).
    { intros Hnil. subst sorted. by rewrite Hnil in Hrow. }
    rewrite (popup_renderBreakdown_nonempty _ Hne). cbv zeta. fold sorted.
    rewrite Htop.
    assert (Hsplit : take 20 sorted =
                     take i sorted ++ row :: drop (S i) (take 20 sorted)).
    { assert (Hk : take 20 sorted !! i = Some row) by by rewrite lookup_take_lt.
      pose proof (take_drop_middle _ _ _ Hk) as Hmiddle.
      rewrite take_take, Nat.min_l in Hmiddle by lia. done. }
    rewrite Hsplit.
    destruct (appendItems_stops (take i sorted) row (drop (S i) (take 20 sorted))
                [] Hbefore Hmissing) as (lines & Hlines & ->).
    done.
Qed.

End PopupBreakdown.


(** ** Properties of number formatting and of the sample-rate table *)

Section FormattingProperties.

Variable toFixed : nat → Q → string.
Variable toLocaleString : Q → string.
Variable parseInt : JSValue → option Z.
Variable binary64 : Q → Q.

(** X20. Numbers below 1000, all negative numbers among them, are printed
    in full by the locale formatter.  From 1000 on the number is scaled by
    a thousand, a million or a billion: the scaled number handed to
    [toFixed] is at least 1, and below 1000 unless the suffix is B. *)
Theorem formatNumber_scales_by_magnitude num :
  (num < 1000 →
     formatNumber toFixed toLocaleString num = toLocaleString num) ∧
  (1000 <= num →
     ∃ scaled suffix,
       formatNumber toFixed toLocaleString num = toFixed 2 scaled +:+ suffix ∧
       1 <= scaled ∧
       (suffix = "K" ∧ num == scaled * 1000 ∧ scaled < 1000 ∨
        suffix = "M" ∧ num == scaled * 1000000 ∧ scaled < 1000 ∨
        suffix = "B" ∧ num == scaled * 1000000000)).
Proof.
  unfold formatNumber. split.
  - intros Hlt.
    destruct (Qle_bool 1000000000 num) eqn:H1; [apply Qle_bool_iff in H1; lra|].
    destruct (Qle_bool 1000000 num) eqn:H2; [apply Qle_bool_iff in H2; lra|].
    destruct (Qle_bool 1000 num) eqn:H3; [apply Qle_bool_iff in H3; lra|].
    done.
  - intros Hge.
    assert (Hnot : ∀ a, Qle_bool a num = false → num < a).
    { intros a H. apply Qnot_le_lt. intros Hle. apply Qle_bool_iff in Hle.
      congruence. }
    destruct (Qle_bool 1000000000 num) eqn:H1.
    { apply Qle_bool_iff in H1. exists (num / 1000000000), "B".
      split; [done|]. split; [apply Qle_shift_div_l; [reflexivity|lra]|].
      right. right. split; [done|]. field. }
    apply Hnot in H1.
    destruct (Qle_bool 1000000 num) eqn:H2.
    { apply Qle_bool_iff in H2. exists (num / 1000000), "M".
      split; [done|]. split; [apply Qle_shift_div_l; [reflexivity|lra]|].
      right. left. split; [done|]. split; [field|].
      apply Qlt_shift_div_r; [reflexivity|lra]. }
    apply Hnot in H2.
    destruct (Qle_bool 1000 num) eqn:H3.
    { exists (num / 1000), "K".
      split; [done|]. split; [apply Qle_shift_div_l; [reflexivity|lra]|].
      left. split; [done|]. split; [field|].
      apply Qlt_shift_div_r; [reflexivity|lra]. }
    apply Hnot in H3. lra.
Qed.

Lemma countTotal_Permutation (l l' : list SampleRateEntry) :
  l ≡ₚ l' → countTotal l = countTotal l'.
Proof.
  unfold countTotal. intros H. induction H; simpl; lia.
Qed.

Lemma countTotal_app (l l' : list SampleRateEntry) :
  countTotal (l ++ l') = (countTotal l + countTotal l')%Z.
Proof. unfold countTotal. induction l; simpl; lia. Qed.

Lemma countTotal_bound (l : list SampleRateEntry) e :
  Forall (λ e, (0 < entry_count e)%Z) l → e ∈ l → (entry_count e ≤ countTotal l)%Z.
Proof.
  unfold countTotal. intros Hpos He.
  induction Hpos as [|x l Hx Hpos IH]; [by apply elem_of_nil in He|].
  assert (Hnonneg : (0 ≤ foldr Z.add 0 (map entry_count l))%Z).
  { clear -Hpos. induction Hpos; simpl; lia. }
  apply elem_of_cons in He as [->|He]; simpl; [lia|].
  specialize (IH He). lia.
Qed.

(** What the loop over the rows keeps: listed entries have positive counts
    and no percentage yet, the running total is the sum of their counts,
    and no row gives more than one entry. *)
Lemma fold_addSampleRate singleProject rows es t :
  Forall (λ e, (0 < entry_count e)%Z ∧ entry_percentage e = None) es →
  t = countTotal es →
  let st := fold_left (addSampleRate parseInt singleProject) rows (es, t) in
  Forall (λ e, (0 < entry_count e)%Z ∧ entry_percentage e = None) st.1 ∧
  st.2 = countTotal st.1 ∧
  (length st.1 ≤ length es + length rows)%nat.
Proof.
  revert es t. induction rows as [|item rows IH]; intros es t Hes Ht; simpl.
  { split; [done|]. split; [done|lia]. }
  unfold addSampleRate at 2.
  destruct (parseInt _) as [count|].
  2:{ destruct (IH es t Hes Ht) as (H1 & H2 & H3). split; [done|]. split; [done|lia]. }
  destruct (0 <? count)%Z eqn:Hcount.
  2:{ destruct (IH es t Hes Ht) as (H1 & H2 & H3). split; [done|]. split; [done|lia]. }
  apply Z.ltb_lt in Hcount.
  match goal with
  | |- context [fold_left _ rows (?es', ?t')] =>
      destruct (IH es' t') as (H1 & H2 & H3)
  end.
  - apply Forall_app. split; [done|]. by repeat constructor.
  - rewrite countTotal_app, Ht. unfold countTotal. simpl. lia.
  - split; [done|]. split; [done|]. rewrite length_app in H3. simpl in H3. lia.
Qed.

Lemma sort_insert_by_count x l :
  StronglySorted (λ a b, (entry_count b ≤ entry_count a)%Z) l →
  StronglySorted (λ a b, (entry_count b ≤ entry_count a)%Z)
    (JS.sort_insert (λ a b, (entry_count b - entry_count a)%Z) x l).
Proof.
  intros H. induction H as [|y l Hsorted IH Hy]; simpl.
  - repeat constructor.
  - destruct (0 <? entry_count y - entry_count x)%Z eqn:Hcmp.
    + apply Z.ltb_lt in Hcmp. constructor; [done|].
      rewrite sort_insert_Permutation. constructor; [lia|done].
    + apply Z.ltb_ge in Hcmp.
      constructor; [by constructor|]. constructor; [lia|].
      eapply Forall_impl; [exact Hy|]. intros z Hz. simpl in Hz. lia.
Qed.

Lemma sort_by_count l :
  StronglySorted (λ a b, (entry_count b ≤ entry_count a)%Z)
    (JS.sort (λ a b, (entry_count b - entry_count a)%Z) l).
Proof.
  unfold JS.sort. induction l as [|x l IH]; simpl; [constructor|].
  by apply sort_insert_by_count.
Qed.

(** X21. In the sample-rate table every listed entry has a positive
    count, the total is the sum of the listed counts, the entries are in
    descending order of count, no row of the response gives more than one
    entry, and the percentage of every entry is its share of the total,
    count / total * 100 rounded after the division and after the
    multiplication, printed with two decimals (the fallback "0.00" is never
    used). *)
Theorem sample_rate_table_is_consistent singleProject rows :
  let result :=
    processSampleRates toFixed parseInt binary64 singleProject (Some rows) in
  let entries := result.1 in
  let total := result.2 in
  let share e :=
    binary64 (binary64 (inject_Z (entry_count e) / inject_Z total) * 100) in
  total = countTotal entries ∧
  Forall (λ e, (0 < entry_count e)%Z ∧
               entry_percentage e = Some (toFixed 2 (share e))) entries ∧
  StronglySorted (λ a b, (entry_count b ≤ entry_count a)%Z) entries ∧
  (length entries ≤ length rows)%nat.
Proof.
  intros result entries total share. subst result entries total share.
  unfold processSampleRates.
  destruct (fold_addSampleRate singleProject rows [] 0%Z) as (Hpos & Hsum & Hlen);
    [constructor|done|].
  destruct (fold_left _ rows ([], 0%Z)) as [es t]. cbn [fst snd] in *.
  set (entries := JS.sort _ _).
  assert (Hperm : entries ≡ₚ map (setPercentage toFixed binary64 t) es)
    by apply sort_Permutation.
  assert (Hcounts : countTotal (map (setPercentage toFixed binary64 t) es) =
                    countTotal es).
  { unfold countTotal. by rewrite map_map. }
  assert (Htotal : t = countTotal entries).
  { by rewrite (countTotal_Permutation _ _ Hperm), Hcounts. }
  assert (Hall : Forall (λ e, (0 < entry_count e)%Z ∧
      entry_percentage e =
        Some (toFixed 2
                (binary64 (binary64 (inject_Z (entry_count e) / inject_Z t) * 100))))
      entries).
  { rewrite Hperm. apply Forall_fmap, Forall_forall. intros e He.
    rewrite Forall_forall in Hpos. destruct (Hpos e He) as [Hcount _].
    split; [done|]. simpl.
    assert (Ht : (0 < t)%Z).
    { rewrite Hsum. eapply Z.lt_le_trans; [exact Hcount|].
      apply countTotal_bound; [|done].
      apply Forall_forall. intros e' He'. by apply Hpos. }
    apply Z.ltb_lt in Ht. by rewrite Ht. }
  split; [done|]. split; [done|]. split; [apply sort_by_count|].
  rewrite Hperm, length_map. simpl in Hlen. lia.
Qed.

End FormattingProperties.


(** ** The further properties at concrete inputs *)

Section MoreInstances.

Import Samples UISamples.

(** "DB.Query" and "db.query" are the same to the equals operator. *)
Lemma matchesRule_ignores_case_witness :
  (JS.toLowerCase <$> Some "DB.Query") = (JS.toLowerCase <$> Some "db.query") ∧
  matchesRule literalRegExp (group "Db.Query" 1) (rule "equals" "DB.Query" 10) =
  matchesRule literalRegExp (group "db.query" 1) (rule "equals" "db.query" 10).
Proof.
  split; [done|].
  apply matchesRule_ignores_case; try done.
  intros a [= <-]. by vm_compute.
Defined.

(** The group "db.query" is matched under equals, hence under the other
    three operators. *)
Lemma operators_ordered_by_strictness_witness :
  matchesRule literalRegExp (group "db.query" 1)
    (withOperator (rule "regex" "db.query" 10) "equals") = true ∧
  matchesRule literalRegExp (group "db.query" 1)
    (withOperator (rule "regex" "db.query" 10) "starts_with") = true ∧
  matchesRule literalRegExp (group "db.query" 1)
    (withOperator (rule "regex" "db.query" 10) "ends_with") = true.
Proof.
  assert (Heq : matchesRule literalRegExp (group "db.query" 1)
                  (withOperator (rule "regex" "db.query" 10) "equals") = true)
    by by vm_compute.
  split; [done|].
  by apply (operators_ordered_by_strictness literalRegExp
              (group "db.query" 1) (rule "regex" "db.query" 10)).
Defined.

(** " db " and "db" match the same group. *)
Lemma matchesRule_ignores_surrounding_space_witness :
  JS.trim " db " ≠ "" ∧
  matchesRule literalRegExp (group "db.query" 1)
    (withValue (rule "contains" " db " 10) (JS.trim " db ")) =
  matchesRule literalRegExp (group "db.query" 1) (rule "contains" " db " 10).
Proof.
  assert (Hne : JS.trim " db " ≠ "") by done.
  split; [done|].
  by apply (matchesRule_ignores_surrounding_space literalRegExp
              (group "db.query" 1) (rule "contains" " db " 10) " db ").
Defined.

(** The rule with value " " is dropped, and it is a blank rule. *)
Lemma getActiveRules_drops_idle_or_blank_witness :
  let blank := rule "contains" " " 10 in
  blank ∈ [blank] ∧ (blank ∉ getActiveRules [blank]) ∧
  ((∀ item, matchesRule literalRegExp item blank = false) ∨
   (∃ v, value blank = Some v ∧ v ≠ "" ∧ allWhiteSpace v = true)).
Proof.
  intros blank.
  assert (Hin : blank ∈ [blank]) by apply list_elem_of_here.
  assert (Hout : blank ∉ getActiveRules [blank]) by (vm_compute; apply not_elem_of_nil).
  split; [done|]. split; [done|].
  exact (getActiveRules_drops_idle_or_blank literalRegExp [blank] blank Hin Hout).
Defined.

(** With trimmed values the empty rule can be left in the list. *)
Lemma getActiveRules_preserves_simulation_witness :
  let rules := [rule "contains" "" 10; rule "equals" "db.query" 10] in
  Forall (λ rule, ∀ v, value rule = Some v → JS.trim v = v) rules ∧
  simulate twoGroups (getActiveRules rules) 1 1 30 = simulate twoGroups rules 1 1 30.
Proof.
  intros rules.
  assert (Htrimmed : Forall (λ rule, ∀ v, value rule = Some v → JS.trim v = v) rules).
  { repeat constructor; by intros v [= <-]. }
  split; [done|].
  exact (getActiveRules_preserves_simulation literalRegExp plainFormat
           twoGroups rules 1 1 30 Htrimmed).
Defined.

(** Two popup rules: the first in the list decides for the group "db". *)
Lemma popup_rules_apply_in_list_order_witness :
  let rules := [ {| Popup.type := Some "op"; Popup.value := Some "d"; Popup.rate := 20 |};
                 {| Popup.type := Some "op"; Popup.value := Some "db"; Popup.rate := 50 |} ] in
  groups oneGroup !! 0%nat = Some (group "db" 100) ∧
  ∃ row,
    breakdown (simulate oneGroup (Popup.activeRules rules) 1 1 30) !! 0%nat = Some row ∧
    samplingRate row = 20 / 100.
Proof.
  intros rules.
  assert (Hi : groups oneGroup !! 0%nat = Some (group "db" 100)) by done.
  split; [done|].
  destruct (popup_rules_apply_in_list_order literalRegExp plainFormat rules)
    as (_ & _ & Hfirst).
  destruct (Hfirst oneGroup 1 1 30 0%nat _ Hi) as (row & Hrow & Hrate).
  exists row. split; [done|]. rewrite Hrate. by vm_compute.
Defined.

(** With a declared total of 1000 over one group of 700 the breakdown
    lists 1000 raw spans. *)
Lemma breakdown_accounts_for_raw_counts_witness :
  let r := simulate capped [] 1 1 30 in
  groupSum (groups capped) <= totalRawCount r ∧
  runningTotal (map rawCount (breakdown r)) == totalRawCount r.
Proof.
  intros r.
  assert (Hle : groupSum (groups capped) <= totalRawCount r) by by vm_compute.
  split; [done|].
  by apply (breakdown_accounts_for_raw_counts literalRegExp plainFormat
              capped [] 1 1 30).
Defined.

(** No rule matches "http.server": the total is 700 * 1/2 * 2. *)
Lemma no_matching_rule_scales_uniformly_witness :
  let rules := [rule "equals" "db.query" 10] in
  let r := simulate oneWeek rules 2 (1 # 2) 7 in
  (∀ item rule, item ∈ groups oneWeek → rule ∈ rules →
                matchesRule literalRegExp item rule = false) ∧
  totalSimulatedCount r =
    runningTotal (map (λ row, rawCount row * (1 # 2) * 2) (breakdown r)).
Proof.
  intros rules r.
  assert (Hnone : ∀ item rule, item ∈ groups oneWeek → rule ∈ rules →
                    matchesRule literalRegExp item rule = false).
  { intros item rule0 ->%list_elem_of_singleton ->%list_elem_of_singleton.
    by vm_compute. }
  split; [done|].
  by apply (no_matching_rule_scales_uniformly literalRegExp plainFormat
              oneWeek rules 2 (1 # 2) 7 Hnone).
Defined.

Lemma simulated_counts_nonnegative_witness :
  let rules := [rule "equals" "db.query" 10] in
  let r := simulate twoGroups rules 3 1 7 in
  Forall (λ item, 0 <= count_or_0 item) (groups twoGroups) ∧
  Forall (λ rule, 0 <= rate rule) rules ∧
  0 <= totalSimulatedCount r ∧ costReduction r <= 100.
Proof.
  intros rules r.
  assert (Hcount : Forall (λ item, 0 <= count_or_0 item) (groups twoGroups))
    by (repeat constructor; by vm_compute).
  assert (Hrate : Forall (λ rule, 0 <= rate rule) rules)
    by (repeat constructor; by vm_compute).
  split; [done|]. split; [done|].
  assert (Hg : 0 <= 1) by by vm_compute.
  assert (He : 0 <= 3) by by vm_compute.
  assert (Hdays : 0 < 7) by by vm_compute.
  destruct (simulated_counts_nonnegative literalRegExp plainFormat
              twoGroups rules 3 1 7 Hcount Hrate Hg He Hdays)
    as (_ & Htotal & _ & Hcost).
  done.
Defined.

Lemma simulated_counts_bounded_by_raw_witness :
  let rules := [rule "equals" "db.query" 10] in
  let r := simulate twoGroups rules 1 1 30 in
  Forall (λ item, 0 <= count_or_0 item) (groups twoGroups) ∧
  Forall (λ rule, 0 <= rate rule <= 100) rules ∧
  totalSimulatedCount r <= runningTotal (map rawCount (breakdown r)) ∧
  costReduction r ==
    (totalRawCount r - totalSimulatedCount r) / totalRawCount r * 100.
Proof.
  intros rules r.
  assert (Hcount : Forall (λ item, 0 <= count_or_0 item) (groups twoGroups))
    by (repeat constructor; by vm_compute).
  assert (Hrate : Forall (λ rule, 0 <= rate rule <= 100) rules)
    by (repeat constructor; by vm_compute).
  split; [done|]. split; [done|].
  assert (Hunit : 0 <= 1 <= 1) by (split; by vm_compute).
  destruct (simulated_counts_bounded_by_raw literalRegExp plainFormat
              twoGroups rules 1 1 30 Hcount Hrate Hunit Hunit)
    as (_ & Htotal & Hcost).
  split; [done|]. apply Hcost; by vm_compute.
Defined.

(** Rendering 120 entries and going to the next page shows page 2 with
    fifty entries. *)
Lemma pagination_stays_in_range_witness :
  let v := App.run [App.Render manyEntries; App.NextPage] freshView in
  App.loaded freshView ∧
  App.filteredBreakdownData v ≠ [] ∧
  App.currentPage v = 2%Z ∧
  (App.currentPage v ≤ App.totalPages (App.filteredBreakdownData v))%Z ∧
  length (App.container v) = 50%nat.
Proof.
  intros v.
  assert (Hloaded : App.loaded freshView) by done.
  assert (Hne : App.filteredBreakdownData v ≠ []) by by vm_compute.
  assert (Hpage : App.currentPage v = 2%Z) by by vm_compute.
  destruct (pagination_stays_in_range [App.Render manyEntries; App.NextPage]
              freshView Hloaded) as (_ & _ & _ & Hshown).
  destruct (Hshown Hne) as (Hrange & _ & Hfull).
  split; [done|]. split; [done|]. split; [done|]. split; [done|].
  apply Hfull. by vm_compute.
Defined.

(** The 120 rendered entries fill three pages; pressing "next" on the
    first page gives the second. *)
Lemma pages_partition_the_selection_witness :
  let v := App.renderBreakdown manyEntries freshView in
  let page k := App.renderBreakdownPage (App.withPage v (Z.of_nat k)) in
  (Z.of_nat 1 < App.totalPages (App.filteredBreakdownData v))%Z ∧
  App.run [App.NextPage] (page 1%nat) = page 2%nat ∧
  concat (map (λ k, App.container (page k))
              (seq 1 (Z.to_nat (App.totalPages (App.filteredBreakdownData v))))) =
    App.filteredBreakdownData v.
Proof.
  intros v page.
  assert (Hpages : (Z.of_nat 1 < App.totalPages (App.filteredBreakdownData v))%Z)
    by by vm_compute.
  destruct (pages_partition_the_selection v) as [Hparts Hnext].
  split; [done|]. split; [exact (Hnext 1%nat Hpages)|exact Hparts].
Defined.

Lemma pagination_controls_follow_page_witness :
  let v := App.run [App.Render manyEntries; App.NextPage] freshView in
  App.loaded freshView ∧
  App.filteredBreakdownData v ≠ [] ∧
  App.paginationDisplay v = "flex" ∧
  App.prevDisabled v = false ∧ App.nextDisabled v = false.
Proof.
  intros v.
  assert (Hloaded : App.loaded freshView) by done.
  assert (Hne : App.filteredBreakdownData v ≠ []) by by vm_compute.
  destruct (pagination_controls_follow_page [App.Render manyEntries; App.NextPage]
              freshView Hloaded) as [Hshown _].
  destruct (Hshown Hne) as (_ & Hbar & _).
  destruct Hbar as (Hflex & Hprev & Hnext & _); [by vm_compute|].
  split; [done|]. split; [done|]. split; [done|].
  split; [etrans; [exact Hprev|by vm_compute]|etrans; [exact Hnext|by vm_compute]].
Defined.

Lemma breakdown_table_stays_sorted_witness :
  let v := App.run [App.Render fewEntries; App.SearchInput "e"] freshView in
  App.loaded freshView ∧ StronglySorted descending (App.container v).
Proof.
  intros v.
  assert (Hloaded : App.loaded freshView) by done.
  split; [done|].
  by apply (breakdown_table_stays_sorted
              [App.Render fewEntries; App.SearchInput "e"] freshView Hloaded).
Defined.

(** Searching for " CACHE " finds the entry of "cache.get". *)
Lemma search_selects_by_fragment_witness :
  let v := App.run [App.Render fewEntries] freshView in
  App.breakdownData v ≠ [] ∧
  entry "cache.get" 7 ∈ App.breakdownData v ∧
  entry "cache.get" 7 ∈ App.filteredBreakdownData (App.onSearchInput " CACHE " v).
Proof.
  intros v.
  assert (Hne : App.breakdownData v ≠ []) by by vm_compute.
  assert (Hin : entry "cache.get" 7 ∈ App.breakdownData v).
  { apply list_elem_of_In. vm_compute. auto. }
  split; [done|]. split; [done|].
  destruct (search_selects_by_fragment " CACHE " v Hne) as (_ & _ & _ & Hfound & _).
  apply (Hfound _ "span.op"); [done| |by vm_compute].
  apply list_elem_of_here.
Defined.

(** Two entries with a description are listed and the call returns; of
    the 120 entries without one the popup lists none and throws. *)
Lemma popup_shows_the_twenty_largest_witness :
  let described row := is_Some (attrs (row_item row) !! "description") in
  let out := PopupView.renderBreakdown plainFixed plainFormat labelledEntries in
  let failed := PopupView.renderBreakdown plainFixed plainFormat manyEntries in
  Forall described labelledEntries ∧
  out.2 = JS.Normal tt ∧
  JS.sort byRawCountDescending manyEntries !! 0%nat = Some (entry "db.query" 120) ∧
  ¬ described (entry "db.query" 120) ∧
  failed.2 = JS.Throw "TypeError" ∧
  failed.1 = [].
Proof.
  intros described out failed.
  assert (Hall : Forall described labelledEntries)
    by (repeat constructor; by eexists).
  assert (Hfirst : JS.sort byRawCountDescending manyEntries !! 0%nat =
                   Some (entry "db.query" 120)) by by vm_compute.
  assert (Hmissing : ¬ described (entry "db.query" 120)).
  { intros [d Hd]. by vm_compute in Hd. }
  destruct (popup_shows_the_twenty_largest plainFixed plainFormat labelledEntries)
    as [Hlisted _].
  destruct (Hlisted Hall) as [Hreturns _].
  destruct (popup_shows_the_twenty_largest plainFixed plainFormat manyEntries)
    as [_ Hstops].
  destruct (Hstops 0%nat (entry "db.query" 120)) as [Hthrows Hlines];
    [lia|exact Hfirst|constructor|exact Hmissing|].
  split; [done|]. split; [exact Hreturns|]. split; [done|]. split; [done|].
  split; [exact Hthrows|]. by inversion Hlines.
Defined.

(** 1500 is printed with the suffix K and a scaled value of 3/2. *)
Lemma formatNumber_scales_by_magnitude_witness :
  1000 <= 1500 ∧
  ∃ scaled suffix,
    formatNumber plainFixed plainFormat 1500 = plainFixed 2 scaled +:+ suffix ∧
    1 <= scaled.
Proof.
  assert (Hge : 1000 <= 1500) by by vm_compute.
  split; [done|].
  destruct (formatNumber_scales_by_magnitude plainFixed plainFormat 1500)
    as [_ Hlarge].
  destruct (Hlarge Hge) as (scaled & suffix & Hfmt & Hone & _).
  by exists scaled, suffix.
Defined.

(** Two of the three rows are listed, the larger first, and the total is
    the sum of their counts. *)
Lemma sample_rate_table_is_consistent_witness :
  let result :=
    processSampleRates plainFixed wholePart unrounded true (Some rateRows) in
  map entry_count result.1 = [70; 30]%Z ∧
  result.2 = countTotal result.1 ∧
  Forall (λ e, entry_percentage e =
               Some (plainFixed 2
                       (inject_Z (entry_count e) / inject_Z result.2 * 100)))
    result.1.
Proof.
  intros result.
  destruct (sample_rate_table_is_consistent plainFixed wholePart unrounded
              true rateRows) as (Htotal & Hall & _).
  split; [by vm_compute|]. split; [exact Htotal|].
  eapply Forall_impl; [exact Hall|]. by intros e [_ He].
Defined.

End MoreInstances.


(** ** Properties of the calculate action *)

Section Calculate.

Variable inputValue : string → option string.
Variable sliderValue : string → option Q.
Variable expansionFactorInput : option Q.
Variable globalRateSlider : Q.
Variable re : string → JS.completion (string → bool).
Variable fmt : Q → string.

Lemma syncRule_value valueSelector attributeSelector operatorSelector rateSelector r :
  let r' := AppRules.syncRule inputValue sliderValue valueSelector
              attributeSelector operatorSelector rateSelector r in
  AppRules.id r' = AppRules.id r ∧
  value (AppRules.fields r') =
    match inputValue (AppRules.ruleSelector valueSelector (AppRules.id r)) with
    | Some text => Some (JS.trim text)
    | None => value (AppRules.fields r)
    end.
Proof.
  unfold AppRules.syncRule. cbn [AppRules.id AppRules.fields]. split; [done|].
  destruct (inputValue (AppRules.ruleSelector valueSelector _)) as [text|],
           (sliderValue _) as [number|],
           (JS.truthy attributeSelector), (JS.truthy operatorSelector);
    repeat match goal with
           | |- context [inputValue ?sel] => destruct (inputValue sel)
           end; done.
Qed.

(** X22. When span data is present and every rule has its value input in
    the document, [handleCalculate] keeps the rules and their ids, leaves
    every rule with a trimmed value, and hands the display the simulation
    of all the synchronised rules: filtering the active rules drops
    nothing that could match.  The expansion factor it uses is never zero:
    a zero or unreadable entry counts as 1, every other entry as itself. *)
Theorem handleCalculate_simulates_synced_rules spanData rules days :
  groups spanData ≠ [] →
  (∀ r, r ∈ rules →
     is_Some (inputValue (AppRules.ruleSelector (AppRules.fieldSelector "value")
                            (AppRules.id r)))) →
  let out := AppRules.handleCalculate inputValue sliderValue expansionFactorInput
               globalRateSlider re fmt (Some spanData) rules days in
  map AppRules.id out.1 = map AppRules.id rules ∧
  Forall (λ r, ∃ v, value (AppRules.fields r) = Some v ∧ JS.trim v = v) out.1 ∧
  ∃ e,
    ¬ e == 0 ∧
    (∀ n, expansionFactorInput = Some n → ¬ n == 0 → e = n) ∧
    (expansionFactorInput = None ∨
     (∃ n, expansionFactorInput = Some n ∧ n == 0) → e = 1) ∧
    out.2 = inr (simulateSampling re fmt spanData (map AppRules.fields out.1)
                   e (globalRateSlider / 100) days).
Proof.
  intros Hdata Hinputs out. subst out. unfold AppRules.handleCalculate.
  destruct (groups spanData) as [|item items] eqn:Hgroups; [done|].
  cbn [fst snd]. unfold AppRules.syncRuleValuesFromDOM.
  set (sync := AppRules.syncRule _ _ _ _ _ _).
  assert (Hsync : ∀ r, r ∈ rules →
            AppRules.id (sync r) = AppRules.id r ∧
            ∃ v, value (AppRules.fields (sync r)) = Some v ∧ JS.trim v = v).
  { intros r Hr. subst sync.
    destruct (syncRule_value (AppRules.fieldSelector "value")
                (Some (AppRules.fieldSelector "attribute"))
                (Some (AppRules.fieldSelector "operator"))
                (AppRules.fieldSelector "rate") r) as [Hid Hvalue].
    split; [done|].
    destruct (Hinputs r Hr) as [text Htext]. rewrite Htext in Hvalue.
    exists (JS.trim text). split; [done|apply trim_idemp]. }
  split; [|split].
  - rewrite map_map. apply map_ext_in. intros r Hr%list_elem_of_In.
    by apply Hsync.
  - apply Forall_fmap, Forall_forall. intros r Hr. by apply Hsync.
  - set (e := match expansionFactorInput with
              | Some number => if Qeq_bool number 0 then 1 else number
              | None => 1
              end).
    exists e. split; [|split; [|split]].
    + subst e. destruct expansionFactorInput as [n|]; [|done].
      destruct (Qeq_bool n 0) eqn:Hn; [done|].
      intros Hzero. apply Qeq_bool_iff in Hzero. congruence.
    + intros n Hn Hnz. subst e. rewrite Hn.
      destruct (Qeq_bool n 0) eqn:Hzero; [|done].
      apply Qeq_bool_iff in Hzero. done.
    + intros [Hnone|(n & Hn & Hzero)]; subst e.
      * by rewrite Hnone.
      * rewrite Hn. apply Qeq_bool_iff in Hzero. by rewrite Hzero.
    + f_equal. unfold getActiveRules. apply simulateSampling_filter_idle.
      intros f Hf Hk. apply isActive_false_trimmed; [|done].
      apply list_elem_of_In, in_map_iff in Hf as (r & <- & Hr%list_elem_of_In).
      apply list_elem_of_In, in_map_iff in Hr as (r0 & <- & Hr0%list_elem_of_In).
      destruct (Hsync r0 Hr0) as (_ & v & Hv & Htrim).
      intros v' Hv'. congruence.
Qed.

End Calculate.

(** ** Blank rule values and the composition of datasets *)

Section BlankAndCompose.

Variable re : string → JS.completion (string → bool).
Variable fmt : Q → string.

Lemma endsWith_empty s : JS.endsWith s "" = true.
Proof.
  induction s as [|c s IH]; [done|].
  cbn [JS.endsWith]. rewrite IH. apply orb_true_r.
Qed.

Lemma startsWith_empty s : JS.startsWith s "" = true.
Proof. by destruct s. Qed.

(** X23. A rule with a non-empty attribute and a non-empty value of white
    space only matches, under starts_with and under ends_with, every record
    whose value for the attribute is non-empty, and under equals it matches
    no such record. *)
Theorem blank_value_under_other_operators item rule a v s :
  attribute rule = Some a → a ≠ "" →
  value rule = Some v → v ≠ "" → allWhiteSpace v = true →
  attrs item !! a = Some s → s ≠ "" →
  matchesRule re item (withOperator rule "starts_with") = true ∧
  matchesRule re item (withOperator rule "ends_with") = true ∧
  matchesRule re item (withOperator rule "equals") = false.
Proof.
  intros Ha Hane Hv Hvne Hws Hs Hsne.
  unfold matchesRule, withOperator. cbn [attribute operator value].
  rewrite Ha, Hv. cbn [JS.toString].
  assert (Hta : JS.truthy (Some a) = true) by by destruct a.
  assert (Htv : JS.truthy (Some v) = true) by by destruct v.
  assert (Hget : item_get item a = s).
  { unfold item_get. rewrite Hs. by destruct s. }
  assert (Hts : JS.truthy (Some s) = true) by by destruct s.
  rewrite Hta, Htv, Hget, Hts, (trim_allWhiteSpace _ Hws).
  cbn [negb orb JS.or_else JS.toLowerCase].
  change (String.eqb "starts_with" "equals") with false.
  change (String.eqb "starts_with" "contains") with false.
  change (String.eqb "starts_with" "starts_with") with true.
  change (String.eqb "ends_with" "equals") with false.
  change (String.eqb "ends_with" "contains") with false.
  change (String.eqb "ends_with" "starts_with") with false.
  change (String.eqb "ends_with" "ends_with") with true.
  change (String.eqb "equals" "equals") with true.
  cbn iota.
  split; [apply startsWith_empty|]. split; [apply endsWith_empty|].
  apply String.eqb_neq. intros H. apply Hsne.
  by apply (proj1 (toLowerCase_empty s)).
Qed.

(** The result for a dataset without a declared total. *)
Lemma simulateSampling_undeclared gs rules e g days :
  let r := simulateSampling re fmt {| groups := gs; totalCountFromMeta := None |}
             rules e g days in
  breakdown r = map (groupRow re (sortRules rules) e g) gs ∧
  totalRawCount r = groupSum gs ∧
  totalSimulatedCount r = runningTotal (map simulatedCount (breakdown r)).
Proof.
  intros r. subst r. destruct gs as [|item gs]; [done|].
  rewrite (simulateSampling_nonempty re fmt) by done.
  unfold resolvedTotal. cbn [groups totalCountFromMeta breakdown totalRawCount
                             totalSimulatedCount].
  destruct (Qlt_le_dec 0 _) as [Hpos|_].
  - exfalso. revert Hpos. generalize (groupSum (item :: gs)). intros q Hq. lra.
  - by rewrite app_nil_r.
Qed.

(** X24. Without a declared total the simulation composes over the
    groups: the breakdown of two lists of groups put together is the
    breakdown of the first followed by that of the second; the total raw
    count is the total of the first part with the counts of the second
    added to it one by one, and the total simulated count is the total of
    the first part with the simulated counts of the second part's entries
    added to it one by one. *)
Theorem simulation_composes_over_groups gs1 gs2 rules e g days :
  let sim gs := simulateSampling re fmt
                  {| groups := gs; totalCountFromMeta := None |} rules e g days in
  breakdown (sim (gs1 ++ gs2)) = breakdown (sim gs1) ++ breakdown (sim gs2) ∧
  totalRawCount (sim (gs1 ++ gs2)) =
    fold_left (λ sum item, sum + match count item with Some c => c | None => 0 end)
      gs2 (totalRawCount (sim gs1)) ∧
  totalSimulatedCount (sim (gs1 ++ gs2)) =
    fold_left Qplus (map simulatedCount (breakdown (sim gs2)))
      (totalSimulatedCount (sim gs1)).
Proof.
  intros sim. subst sim. cbv beta.
  destruct (simulateSampling_undeclared (gs1 ++ gs2) rules e g days)
    as (Hb & Hraw & Hsim).
  destruct (simulateSampling_undeclared gs1 rules e g days) as (Hb1 & Hraw1 & Hsim1).
  destruct (simulateSampling_undeclared gs2 rules e g days) as (Hb2 & Hraw2 & Hsim2).
  assert (Hbreak : breakdown (simulateSampling re fmt
                     {| groups := gs1 ++ gs2; totalCountFromMeta := None |}
                     rules e g days) =
                   breakdown (simulateSampling re fmt
                     {| groups := gs1; totalCountFromMeta := None |} rules e g days) ++
                   breakdown (simulateSampling re fmt
                     {| groups := gs2; totalCountFromMeta := None |} rules e g days)).
  { by rewrite Hb, Hb1, Hb2, map_app. }
  split; [done|]. split.
  - rewrite Hraw, Hraw1. unfold groupSum. by rewrite fold_left_app.
  - rewrite Hsim, Hsim1, Hbreak. unfold runningTotal.
    by rewrite map_app, fold_left_app.
Qed.

End BlankAndCompose.

Section YetMoreInstances.

Import Samples UISamples.

(** Two rules with their value inputs in the document, and an expansion
    factor entered as 0. *)
Lemma handleCalculate_simulates_synced_rules_witness :
  let rules := [ {| AppRules.id := "1"; AppRules.fields := rule "contains" "" 50 |} ] in
  let inputValue (selector : string) :=
    if String.eqb selector
         (AppRules.ruleSelector (AppRules.fieldSelector "value") "1")
    then Some " db " else None in
  let out := AppRules.handleCalculate inputValue (λ _, None) (Some 0) 100
               literalRegExp plainFormat (Some oneGroup) rules 30 in
  groups oneGroup ≠ [] ∧
  map AppRules.id out.1 = ["1"] ∧
  ∃ e, ¬ e == 0 ∧
       out.2 = inr (simulate oneGroup (map AppRules.fields out.1) e (100 / 100) 30).
Proof.
  intros rules inputValue out.
  assert (Hdata : groups oneGroup ≠ []) by done.
  assert (Hinputs : ∀ r, r ∈ rules →
            is_Some (inputValue (AppRules.ruleSelector
                                   (AppRules.fieldSelector "value") (AppRules.id r)))).
  { intros r ->%list_elem_of_singleton. by eexists. }
  destruct (handleCalculate_simulates_synced_rules inputValue (λ _, None) (Some 0)
              100 literalRegExp plainFormat oneGroup rules 30 Hdata Hinputs)
    as (Hids & _ & e & Hnonzero & _ & _ & Hout).
  split; [done|]. split; [exact Hids|].
  exists e. split; [done|exact Hout].
Defined.

(** A rule whose value is one space, on the group "db". *)
Lemma blank_value_under_other_operators_witness :
  allWhiteSpace " " = true ∧
  attrs (group "db" 100) !! "span.op" = Some "db" ∧
  matchesRule literalRegExp (group "db" 100)
    (withOperator (rule "contains" " " 50) "starts_with") = true ∧
  matchesRule literalRegExp (group "db" 100)
    (withOperator (rule "contains" " " 50) "equals") = false.
Proof.
  assert (Hattr : attrs (group "db" 100) !! "span.op" = Some "db") by by vm_compute.
  split; [done|]. split; [done|].
  destruct (blank_value_under_other_operators literalRegExp (group "db" 100)
              (rule "contains" " " 50) "span.op" " " "db")
    as (Hstarts & _ & Hequals); done.
Defined.

End YetMoreInstances.
